(** * VESPER42: the screenplay parser and the outline generator

    A shallow embedding of [AdvancedScriptParser] (advanced-parser.js) and
    [ScriptOutlineGenerator] (backend/generators/outline-generator.js),
    followed by the properties of the specification that concern them.

    Conventions of the embedding:
    - a JavaScript string is the list of its UTF-16 code units ([N]);
    - array indices, array lengths and the counters of the parser are [nat];
    - the non-integer numbers of the parser, which are the quotient of two
      array lengths and the constants 0.7 and 0.5, are exact rationals ([Q]);
    - the numbers of the generator are binary64 floats, with the operations
      of IEEE 754 as JavaScript applies them;
    - [console.log] is not modelled;
    - the database is a record of query results handed to the generator. *)

From Stdlib Require Import Ascii String.
From Stdlib Require Import List Bool Arith NArith ZArith QArith Lia.
From Stdlib Require Import Floats Uint63.
From Stdlib Require Import Permutation Sorted.
Import ListNotations.

Set Warnings "-inexact-float".

Set Implicit Arguments.

(* ================================================================== *)
(** * The JavaScript runtime used by the two classes                    *)
(* ================================================================== *)

Module JS.

Local Open Scope N_scope.

(** A UTF-16 code unit, and a string as [String.prototype] sees it. *)
Definition char := N.
Definition jsstring := list char.

(** A literal of the source; every literal embedded below is Basic Latin,
    except the em dash of [detectTone], which is given by its code unit. *)
Definition lit (s : string) : jsstring :=
  List.map N_of_ascii (list_ascii_of_string s).

Definition emDash : char := 8212.

Fixpoint eqs (a b : jsstring) : bool :=
  match a, b with
  | [], [] => true
  | x :: a', y :: b' => (x =? y) && eqs a' b'
  | _, _ => false
  end.

(** ECMAScript [LineTerminator] and [WhiteSpace]; [\s] in a regular
    expression and [String.prototype.trim] use their union. *)
Definition isLineTerminator (c : char) : bool :=
  (c =? 10) || (c =? 13) || (c =? 8232) || (c =? 8233).

Definition isWhiteSpace (c : char) : bool :=
  (c =? 9) || (c =? 11) || (c =? 12) || (c =? 32) || (c =? 160)
  || (c =? 5760) || ((8192 <=? c) && (c <=? 8202))
  || (c =? 8239) || (c =? 8287) || (c =? 12288) || (c =? 65279).

Definition isSpace (c : char) : bool := isWhiteSpace c || isLineTerminator c.

Fixpoint trimStart (s : jsstring) : jsstring :=
  match s with
  | c :: s' => if isSpace c then trimStart s' else s
  | [] => []
  end.

Definition trimEnd (s : jsstring) : jsstring := rev (trimStart (rev s)).

(** [s.trim()] *)
Definition trim (s : jsstring) : jsstring := trimEnd (trimStart s).

(** [s.split(sep)] for a separator of one code unit: never empty. *)
Fixpoint split (sep : char) (s : jsstring) : list jsstring :=
  match s with
  | [] => [[]]
  | c :: s' =>
      if c =? sep then [] :: split sep s'
      else match split sep s' with
           | l :: ls => (c :: l) :: ls
           | [] => [[c]]
           end
  end.

Definition newline : char := 10.
Definition space : char := 32.

(** Case folding on Basic Latin.  [toUpperCase] is only applied by the
    source to text a case-insensitive Basic Latin pattern has matched,
    where it is this function. *)
Definition upperASCII (c : char) : char :=
  if (97 <=? c) && (c <=? 122) then c - 32 else c.

Definition lowerASCII (c : char) : char :=
  if (65 <=? c) && (c <=? 90) then c + 32 else c.

Definition toUpperCaseASCII (s : jsstring) : jsstring := List.map upperASCII s.
Definition toLowerCaseASCII (s : jsstring) : jsstring := List.map lowerASCII s.

(** ** Regular expressions

    The fragment of ECMAScript patterns the source uses (no [u], [m] or [s]
    flag): quantifiers are applied to single-character atoms only. *)
Inductive regex : Type :=
| Empty
| Class (p : char -> bool)
| Seq (r1 r2 : regex)
| Alt (r1 r2 : regex)
| Many (greedy : bool) (min : nat) (p : char -> bool)
| Group (n : nat) (r : regex)
| Start
| End
| WordBoundary.

(** Character atoms. *)
Definition isUpperAZ (c : char) : bool := (65 <=? c) && (c <=? 90).
Definition isWordChar (c : char) : bool :=
  ((65 <=? c) && (c <=? 90)) || ((97 <=? c) && (c <=? 122))
  || ((48 <=? c) && (c <=? 57)) || (c =? 95).
(** [.] without the [s] flag *)
Definition isDot (c : char) : bool := negb (isLineTerminator c).

(** A pattern character [c] against an input character [x].  Under the [i]
    flag both are canonicalised; the canonical form of a code unit above 127
    is never below 128, so for the Basic Latin pattern characters of the
    source canonicalisation is [upperASCII]. *)
Definition sameChar (ignoreCase : bool) (c x : char) : bool :=
  if ignoreCase then upperASCII x =? upperASCII c else x =? c.

Fixpoint chars (ignoreCase : bool) (cs : jsstring) : regex :=
  match cs with
  | [] => Empty
  | c :: cs' => Seq (Class (sameChar ignoreCase c)) (chars ignoreCase cs')
  end.

(** A run of literal characters, case-sensitive or under the [i] flag. *)
Definition str (s : string) : regex := chars false (lit s).
Definition stri (s : string) : regex := chars true (lit s).

Fixpoint alts (rs : list regex) : regex :=
  match rs with
  | [] => Empty
  | [r] => r
  | r :: rs' => Alt r (alts rs')
  end.

Fixpoint seqs (rs : list regex) : regex :=
  match rs with
  | [] => Empty
  | [r] => r
  | r :: rs' => Seq r (seqs rs')
  end.

(** The state of a match attempt: the input already consumed (nearest
    character first), the input ahead, and the captures made so far. *)
Record mstate : Type := MState {
  before : list char;
  after : list char;
  caps : list (nat * jsstring)
}.

Definition cont := mstate -> option mstate.

Definition orElse (a : option mstate) (b : option mstate) : option mstate :=
  match a with Some _ => a | None => b end.

(** [p{min,}]: as many as possible first, giving back one at a time. *)
Fixpoint manyGreedy (p : char -> bool) (k : cont) (min : nat)
    (cs : list (nat * jsstring)) (b a : list char) {struct a} : option mstate :=
  let stop := if Nat.eqb min 0 then k (MState b a cs) else None in
  match a with
  | c :: a' =>
      if p c then orElse (manyGreedy p k (Nat.pred min) cs (c :: b) a') stop
      else stop
  | [] => stop
  end.

(** [p{min,}?]: as few as possible first, taking one more at a time. *)
Fixpoint manyLazy (p : char -> bool) (k : cont) (min : nat)
    (cs : list (nat * jsstring)) (b a : list char) {struct a} : option mstate :=
  let more :=
    match a with
    | c :: a' => if p c then manyLazy p k (Nat.pred min) cs (c :: b) a' else None
    | [] => None
    end in
  if Nat.eqb min 0 then orElse (k (MState b a cs)) more else more.

Definition wordAt (l : list char) : bool :=
  match l with c :: _ => isWordChar c | [] => false end.

(** The text consumed between two states of one attempt. *)
Definition consumed (s s' : mstate) : jsstring :=
  firstn (length (after s) - length (after s')) (after s).

(** The backtracking matcher, in continuation-passing style. *)
Fixpoint run (r : regex) (k : cont) (s : mstate) : option mstate :=
  match r with
  | Empty => k s
  | Class p =>
      match after s with
      | c :: a' => if p c then k (MState (c :: before s) a' (caps s)) else None
      | [] => None
      end
  | Seq r1 r2 => run r1 (run r2 k) s
  | Alt r1 r2 => orElse (run r1 k s) (run r2 k s)
  | Many true min p => manyGreedy p k min (caps s) (before s) (after s)
  | Many false min p => manyLazy p k min (caps s) (before s) (after s)
  | Group n r1 =>
      run r1 (fun s' =>
        k (MState (before s') (after s') ((n, consumed s s') :: caps s'))) s
  | Start => match before s with [] => k s | _ :: _ => None end
  | End => match after s with [] => k s | _ :: _ => None end
  | WordBoundary =>
      if xorb (wordAt (before s)) (wordAt (after s)) then k s else None
  end.

(** The leftmost match: attempts at index 0, 1, ..., length. *)
Fixpoint search (r : regex) (b a : list char) {struct a} : option mstate :=
  orElse (run r Some (MState b a []))
         (match a with
          | c :: a' => search r (c :: b) a'
          | [] => None
          end).

(** [re.exec(s)] / [s.match(re)] without the [g] flag, and [re.test(s)]. *)
Definition exec (r : regex) (s : jsstring) : option mstate := search r [] s.

Definition test (r : regex) (s : jsstring) : bool :=
  match exec r s with Some _ => true | None => false end.

(** [match[n]] of a successful match. *)
Fixpoint group (n : nat) (cs : list (nat * jsstring)) : option jsstring :=
  match cs with
  | (m, t) :: cs' => if Nat.eqb m n then Some t else group n cs'
  | [] => None
  end.

(** ** Arrays and sets *)

(** [Array.prototype.sort(cmp)]: the sort is stable (ECMAScript 2019, and
    the Node 18 the project requires), so for a consistent comparator the
    result is that of a stable insertion sort. *)
Section Sort.
Variable A : Type.
Variable cmp : A -> A -> Z.

Fixpoint insertBy (x : A) (l : list A) : list A :=
  match l with
  | [] => [x]
  | y :: l' => if (cmp x y <=? 0)%Z then x :: l else y :: insertBy x l'
  end.

Definition sortBy (l : list A) : list A := fold_right insertBy [] l.
End Sort.

(** [set.add(x)] on a [Set] of strings, kept in insertion order, which is
    the order [Array.from(set)] returns. *)
Definition setAdd (x : jsstring) (l : list jsstring) : list jsstring :=
  if existsb (eqs x) l then l else l ++ [x].

End JS.

(* ================================================================== *)
(** * AdvancedScriptParser (advanced-parser.js)                         *)
(* ================================================================== *)

Module Parser.
Import JS.

(** ** The patterns of the parser *)

(** [/^(INT\.|EXT\.)/i] *)
Definition headerRe : regex :=
  seqs [Start; Group 1 (alts [stri "INT."; stri "EXT."])].

(** [/^(INT\.|EXT\.)\s+(.+?)\s+-\s+(DAY|NIGHT|DAWN|DUSK|CONTINUOUS)/i] *)
Definition headerPartsRe : regex :=
  seqs [Start;
        Group 1 (alts [stri "INT."; stri "EXT."]);
        Many true 1 isSpace;
        Group 2 (Many false 1 isDot);
        Many true 1 isSpace;
        stri "-";
        Many true 1 isSpace;
        Group 3 (alts [stri "DAY"; stri "NIGHT"; stri "DAWN"; stri "DUSK";
                       stri "CONTINUOUS"])].

(** [/^[A-Z][A-Z\s]{2,}$/] *)
Definition cueRe : regex :=
  seqs [Start; Class isUpperAZ;
        Many true 2 (fun c => isUpperAZ c || isSpace c); End].

(** [/^(INT\.|EXT\.|FADE|CUT)/] *)
Definition directiveRe : regex :=
  seqs [Start; Group 1 (alts [str "INT."; str "EXT."; str "FADE"; str "CUT"])].

(** ** Records *)

(** A scene object.  [page_end] is [null] while the scene is open, and
    [dialogue_ratio] is absent until the last pass of [extractScenes]. *)
Record scene : Type := Scene {
  scene_number : nat;
  scene_type : jsstring;
  location : jsstring;
  time : jsstring;
  page_start : nat;
  page_end : option nat;
  content : jsstring;
  dialogue_lines : list jsstring;
  action_lines : list jsstring;
  characters_present : list jsstring;
  dialogue_ratio : option Q
}.

Record dialogueLine : Type := DialogueLine {
  d_scene_number : nat;
  d_character : jsstring;
  d_line_number : nat;
  d_text : jsstring;
  d_length : nat;
  d_tone : jsstring
}.

Record beat : Type := Beat {
  beat_type : jsstring;
  page_number : nat;
  b_scene_number : nat;
  b_location : jsstring;
  confidence : Q
}.

(** ** extractScenes *)

(** The variables of the scan: [scenes], [currentScene], [sceneNumber] and
    [pageCount]. *)
Record scan : Type := Scan {
  scenes : list scene;
  currentScene : option scene;
  sceneNumber : nat;
  pageCount : nat
}.

Definition scan0 : scan := Scan [] None 0 0.

(** [currentScene.page_end = pageCount; scenes.push(currentScene)] *)
Definition closeScene (sc : scene) (pages : nat) : scene :=
  Scene (scene_number sc) (scene_type sc) (location sc) (time sc)
        (page_start sc) (Some pages) (content sc) (dialogue_lines sc)
        (action_lines sc) (characters_present sc) (dialogue_ratio sc).

Definition pushCurrent (st : scan) : list scene :=
  match currentScene st with
  | Some sc => scenes st ++ [closeScene sc (pageCount st)]
  | None => scenes st
  end.

(** The object literal assigned to [currentScene] at a header. *)
Definition openScene (number pages : nat) (line : jsstring) : scene :=
  let m := exec headerPartsRe line in
  let part (n : nat) : option jsstring :=
    match m with Some s => group n (caps s) | None => None end in
  Scene number
        (match part 1%nat with Some t => toUpperCaseASCII t | None => lit "INT." end)
        (match part 2%nat with Some t => trim t | None => lit "UNKNOWN" end)
        (match part 3%nat with Some t => toUpperCaseASCII t | None => lit "DAY" end)
        pages None [] [] [] [] None.

(** The three branches that classify a line of an open scene. *)
Definition addLine (lines : list jsstring) (i : nat) (line : jsstring)
    (sc : scene) : scene :=
  let content' := content sc ++ line ++ [newline] in
  let present' :=
    if test cueRe line && (length line <? 30)%nat
    then setAdd (trim line) (characters_present sc)
    else characters_present sc in
  let nonEmpty := (0 <? length line)%nat in
  let dialogue' :=
    if test cueRe line then dialogue_lines sc
    else if nonEmpty && (0 <? i)%nat
            && test cueRe (trim (nth (i - 1) lines []))
         then dialogue_lines sc ++ [line]
         else dialogue_lines sc in
  let action' :=
    if test cueRe line then action_lines sc
    else if nonEmpty && (0 <? i)%nat
            && test cueRe (trim (nth (i - 1) lines []))
         then action_lines sc
         else if nonEmpty then action_lines sc ++ [line]
              else action_lines sc in
  Scene (scene_number sc) (scene_type sc) (location sc) (time sc)
        (page_start sc) (page_end sc) content' dialogue' action' present'
        (dialogue_ratio sc).

(** One iteration of the [for] loop, at index [i]. *)
Definition step (lines : list jsstring) (st : scan) (i : nat) : scan :=
  let line := trim (nth i lines []) in
  let st1 :=
    if test headerRe line
    then Scan (pushCurrent st)
              (Some (openScene (S (sceneNumber st)) (pageCount st) line))
              (S (sceneNumber st)) (pageCount st)
    else st in
  let st2 :=
    match currentScene st1 with
    | Some sc => Scan (scenes st1) (Some (addLine lines i line sc))
                      (sceneNumber st1) (pageCount st1)
    | None => st1
    end in
  if (i mod 60 =? 0)%nat
  then Scan (scenes st2) (currentScene st2) (sceneNumber st2) (S (pageCount st2))
  else st2.

(** [scene.dialogue_lines.length /
     (scene.dialogue_lines.length + scene.action_lines.length + 1)] *)
Definition ratio (sc : scene) : Q :=
  inject_Z (Z.of_nat (length (dialogue_lines sc)))
  / inject_Z (Z.of_nat (length (dialogue_lines sc) + length (action_lines sc) + 1)).

(** The body of the final [scenes.forEach]. *)
Definition finishScene (sc : scene) : scene :=
  Scene (scene_number sc) (scene_type sc) (location sc) (time sc)
        (page_start sc) (page_end sc) (content sc) (dialogue_lines sc)
        (action_lines sc) (characters_present sc) (Some (ratio sc)).

Definition scanLines (lines : list jsstring) : scan :=
  fold_left (step lines) (seq 0 (length lines)) scan0.

Definition extractScenes (text : jsstring) : list scene :=
  let lines := split newline text in
  let st := scanLines lines in
  List.map finishScene (pushCurrent st).

(** ** detectTone and extractDialogue *)

Section Dialogue.

(** [String.prototype.toLowerCase], the full Unicode mapping.  It is a
    parameter of the embedding: what is proved of [detectTone] and
    [extractDialogue] holds whatever it returns. *)
Variable toLowerCase : jsstring -> jsstring.

(** The six patterns, in the order of the [if] statements. *)
Definition intenseRe1 : regex := Many true 1 (N.eqb 33).      (* /!+/ *)
Definition intenseRe2 : regex :=                      (* /\byell|shout|scream\b/i *)
  alts [Seq WordBoundary (stri "yell"); stri "shout";
        Seq (stri "scream") WordBoundary].
Definition questionRe : regex := str "?".                   (* /\?/ *)
Definition hesitantRe : regex :=                            (* /\.\.\.|\u2014/ *)
  alts [str "..."; Class (N.eqb emDash)].
Definition aggressiveRe : regex :=                          (* /fuck|shit|damn/i *)
  alts [stri "fuck"; stri "shit"; stri "damn"].
Definition tenderRe : regex :=                              (* /love|care|sweet/i *)
  alts [stri "love"; stri "care"; stri "sweet"].
Definition humorousRe : regex :=                            (* /ha|heh|funny/i *)
  alts [stri "ha"; stri "heh"; stri "funny"].

Definition detectTone (text : jsstring) : jsstring :=
  let lowerText := toLowerCase text in
  if test intenseRe1 text || test intenseRe2 text then lit "intense"
  else if test questionRe text then lit "questioning"
  else if test hesitantRe text then lit "hesitant"
  else if test aggressiveRe text then lit "aggressive"
  else if test tenderRe lowerText then lit "tender"
  else if test humorousRe lowerText then lit "humorous"
  else lit "neutral".

(** The variables of the inner scan of one scene: [currentCharacter],
    [lineNumber], and the lines pushed to [dialogue] so far. *)
Record speech : Type := Speech {
  currentCharacter : option jsstring;
  lineNumber : nat;
  dialogue : list dialogueLine
}.

(** The body of [lines.forEach] for the scene numbered [number].  A cue has
    at least three characters, so [currentCharacter] is truthy exactly when
    it is not [null]. *)
Definition speak (number : nat) (sp : speech) (line : jsstring) : speech :=
  let trimmed := trim line in
  if test cueRe trimmed && (length trimmed <? 30)%nat
  then Speech (Some trimmed) (lineNumber sp) (dialogue sp)
  else
    match currentCharacter sp with
    | Some who =>
        if (0 <? length trimmed)%nat && negb (test directiveRe trimmed)
        then Speech (currentCharacter sp) (S (lineNumber sp))
               (dialogue sp ++
                [DialogueLine number who (S (lineNumber sp)) trimmed
                   (length (split space trimmed)) (detectTone trimmed)])
        else sp
    | None => sp
    end.

(** The body of [scenes.forEach], appending to the shared [dialogue]. *)
Definition sceneDialogue (acc : list dialogueLine) (sc : scene)
    : list dialogueLine :=
  let lines := split newline (content sc) in
  dialogue (fold_left (speak (scene_number sc)) lines (Speech None 0 acc)).

(** [extractDialogue(scenes, characters)]; the second argument is not
    read by the source. *)
Definition extractDialogue (scenes : list scene) : list dialogueLine :=
  fold_left sceneDialogue scenes [].

End Dialogue.

(** ** identifyBeats *)

Record template : Type := Template {
  name : jsstring;
  range : nat * nat
}.

(** [beatTemplates] *)
Definition beatTemplates : list template :=
  [ Template (lit "Opening Image") (1, 3);
    Template (lit "Inciting Incident") (10, 15);
    Template (lit "End of Act 1") (25, 30);
    Template (lit "Midpoint") (55, 65);
    Template (lit "All Is Lost") (75, 85);
    Template (lit "Climax") (90, 100);
    Template (lit "Resolution") (105, 115) ]%nat.

(** [Math.ceil(fullText.split('\n').length / 60)] *)
Definition totalPagesOf (fullText : jsstring) : nat :=
  (length (split newline fullText) + 59) / 60.

(** [s => s.page_start >= template.range[0] && s.page_start <= template.range[1]] *)
Definition inRange (t : template) (s : scene) : bool :=
  (fst (range t) <=? page_start s)%nat && (page_start s <=? snd (range t))%nat.

(** [(a, b) => b.dialogue_lines.length - a.dialogue_lines.length] *)
Definition byDialogue (a b : scene) : Z :=
  (Z.of_nat (length (dialogue_lines b)) - Z.of_nat (length (dialogue_lines a)))%Z.

(** The body of [beatTemplates.forEach]: the beats pushed for one template. *)
Definition beatFor (scenes : list scene) (t : template) : list beat :=
  let matchingScenes := filter (inRange t) scenes in
  if (0 <? length matchingScenes)%nat then
    match sortBy byDialogue matchingScenes with
    | importantScene :: _ =>
        [Beat (name t) (page_start importantScene)
              (scene_number importantScene) (location importantScene)
              (if (1 <? length matchingScenes)%nat then 7 # 10 else 5 # 10)]
    | [] => []
    end
  else [].

Definition identifyBeats (scenes : list scene) (fullText : jsstring) : list beat :=
  let totalPages := totalPagesOf fullText in
  flat_map (beatFor scenes) beatTemplates.

End Parser.

(* ================================================================== *)
(** * ScriptOutlineGenerator (backend/generators/outline-generator.js)  *)
(* ================================================================== *)

Module Generator.
Import JS.

Local Open Scope float_scope.

(** ** Numbers *)

Definition number := float.

(** [ToBoolean] of a number: neither zero nor NaN. *)
Definition truthy (x : number) : bool := negb (x =? 0) && (x =? x).

(** [x || d] for a number or [null]/[undefined]. *)
Definition orDefault (x : option number) (d : number) : number :=
  match x with
  | Some v => if truthy v then v else d
  | None => d
  end.

(** An array length as a number (exact: lengths are below 2^32). *)
Definition ofNat (n : nat) : number := of_uint63 (Uint63.of_Z (Z.of_nat n)).

Definition two52 : number := 4503599627370496.

(** [Math.round]: the nearest integer, ties towards +infinity. *)
Definition mathRound (x : number) : number :=
  if negb (abs x <? two52) then x
  else if x =? 0 then x
  else
    let r := if 0 <=? x then (x + two52) - two52 else (x - two52) + two52 in
    let fl := if x <? r then r - 1 else r in
    let res := if 0.5 <=? x - fl then fl + 1 else fl in
    if (res =? 0) && (x <? 0) then -0 else res.

(** [Math.min] of two numbers. *)
Definition mathMin (a b : number) : number :=
  if a <? b then a
  else if b <? a then b
  else if a =? b then (if 1 / a <? 0 then a else b)
  else nan.

(** ** Template literals

    A string built by a template literal is kept as the sequence of its
    parts, so that [Number.prototype.toString] and [toFixed] need no model. *)
Inductive part : Type :=
| Str (s : jsstring)
| Num (x : number)
| Fixed (digits : nat) (x : number)
| Val (v : option jsstring).

Definition text := list part.

Definition plain (s : string) : text := [Str (lit s)].

(** ** Promises and the state of the generator object *)

Inductive exn : Type :=
| TypeError.

Inductive promise (A : Type) : Type :=
| Resolved (a : A)
| Rejected (e : exn).
Arguments Resolved {A} a.
Arguments Rejected {A} e.

(** A row of [learned_patterns]; the generator stores the rows and reads
    none of their columns. *)
Record pattern : Type := Pattern {
  pattern_type : jsstring;
  pattern_name : jsstring
}.

(** [this]: the one field set by the constructor. *)
Record generator : Type := GeneratorObject {
  patterns : option (list pattern)
}.

(** [new ScriptOutlineGenerator()] *)
Definition constructor : generator := GeneratorObject None.

(** An [async] method: it may update [this], and settles one way or the
    other. *)
Definition async (A : Type) : Type := generator -> promise A * generator.

Definition ret {A : Type} (a : A) : async A := fun this => (Resolved a, this).

Definition bind {A B : Type} (m : async A) (k : A -> async B) : async B :=
  fun this =>
    match m this with
    | (Resolved a, this') => k a this'
    | (Rejected e, this') => (Rejected e, this')
    end.

Notation "'await' x <- m ;; k" := (bind m (fun x => k))
  (at level 61, x name, m at next level, right associativity).

(** ** Rows and the database client

    A query of the client settles with [{ data, error }] and never rejects;
    [None] is a [null] [data]. *)
Record script : Type := Script {
  id : jsstring;
  title : jsstring;
  year : option number;
  page_count : option number;
  box_office : option number;
  imdb_rating : number
}.

Record beatRow : Type := BeatRow {
  beat_type : jsstring;
  page_number : number
}.

Record database : Type := Database {
  (** [from('learned_patterns').select('*')] *)
  learned_patterns : option (list pattern);
  (** [from('scripts').select('*').contains('genre_tags', [genre])
       .gte('imdb_rating', 7.0).order('imdb_rating', ...).limit(limit)] *)
  scripts_like : option jsstring -> nat -> option (list script);
  (** [from('story_beats').select('beat_type, page_number')
       .in('script_id', scriptIds)] *)
  story_beats_in : list jsstring -> option (list beatRow)
}.

(** ** Objects used as maps

    An object literal keyed by strings is an association list.  Reading a
    key that is not an own property of a plain object finds the members of
    [Object.prototype]. *)
Definition object (A : Type) : Type := list (jsstring * A).

Fixpoint own {A : Type} (k : jsstring) (o : object A) : option A :=
  match o with
  | (k', v) :: o' => if eqs k k' then Some v else own k o'
  | [] => None
  end.

Fixpoint put {A : Type} (k : jsstring) (v : A) (o : object A) : object A :=
  match o with
  | (k', v') :: o' => if eqs k k' then (k', v) :: o' else (k', v') :: put k v o'
  | [] => [(k, v)]
  end.

Definition objectPrototype : list jsstring :=
  List.map lit
    [ "constructor"; "__defineGetter__"; "__defineSetter__"; "hasOwnProperty";
      "__lookupGetter__"; "__lookupSetter__"; "isPrototypeOf";
      "propertyIsEnumerable"; "toString"; "valueOf"; "__proto__";
      "toLocaleString" ]%string.

Definition inherited (k : jsstring) : bool := existsb (eqs k) objectPrototype.

(** ** The outline *)

Record structure : Type := Structure {
  totalPages : number;
  act1End : number;
  act2aMidpoint : number;
  act2bEnd : number;
  act3End : number
}.

(** The [page] of a beat of the outline: a number or a string. *)
Inductive pageOf : Type :=
| Page (n : number)
| Pages (t : text).

(** A beat of the outline.  Its [description] and [example], constant
    prose with the premise or the genre spliced into four of them, are
    left out. *)
Record outlineBeat : Type := OutlineBeat {
  name : jsstring;
  page : pageOf
}.

Record act : Type := Act {
  act_title : jsstring;
  pages : text;
  beats : list outlineBeat
}.

Record comparable : Type := Comparable {
  c_title : jsstring;
  c_rating : number;
  c_year : option number
}.

Record prediction : Type := Prediction {
  probability : number;
  confidence : jsstring;
  reasoning : text;
  comparables : option (list comparable)
}.

Record recommendations : Type := Recommendations {
  r_targetLength : text;
  r_pacing : jsstring;
  r_characters : jsstring;
  r_dialogue : jsstring;
  r_budget : option jsstring
}.

Record outline : Type := Outline {
  premise : option jsstring;
  genre : option jsstring;
  o_structure : structure;
  act1 : act;
  act2a : act;
  act2b : act;
  act3 : act;
  o_prediction : prediction;
  o_recommendations : recommendations
}.

(** ** The methods *)

(** [loadPatterns]: [this.patterns = patterns || []] *)
Definition loadPatterns (db : database) : async unit :=
  fun _ =>
    (Resolved tt,
     GeneratorObject
       (Some (match learned_patterns db with Some ps => ps | None => [] end))).

(** [findSimilarScripts(genre, limit = 10)] *)
Definition findSimilarScripts (db : database) (genre : option jsstring)
    (limit : nat) : async (list script) :=
  match scripts_like db genre limit with
  | None => ret []
  | Some scripts =>
      if Nat.eqb (length scripts) 0 then ret [] else ret scripts
  end.

(** [calculateOptimalStructure(similarScripts)] *)
Definition calculateOptimalStructure (similarScripts : list script)
    : async structure :=
  if Nat.eqb (length similarScripts) 0 then
    ret (Structure 110 30 60 90 110)
  else
    let avgPages :=
      fold_left (fun sum s => sum + orDefault (page_count s) 110)
                similarScripts 0
      / ofNat (length similarScripts) in
    ret (Structure (mathRound avgPages)
                   (mathRound (avgPages * 0.25))
                   (mathRound (avgPages * 0.50))
                   (mathRound (avgPages * 0.75))
                   (mathRound avgPages)).

(** [getDefaultBeats()] *)
Definition getDefaultBeats : object number :=
  [ (lit "Opening Image", 1);
    (lit "Inciting Incident", 12);
    (lit "End of Act 1", 25);
    (lit "Midpoint", 60);
    (lit "All Is Lost", 75);
    (lit "Climax", 95);
    (lit "Resolution", 110) ].

(** The body of [beats.forEach] in [getBeatTiming]: on a key that names a
    member of [Object.prototype] the inherited value is truthy and has no
    [push], and the call throws. *)
Definition groupBeat (acc : promise (object (list number))) (b : beatRow)
    : promise (object (list number)) :=
  match acc with
  | Rejected e => Rejected e
  | Resolved beatsByType =>
      match own (beat_type b) beatsByType with
      | Some pages_ =>
          Resolved (put (beat_type b) (pages_ ++ [page_number b]) beatsByType)
      | None =>
          if inherited (beat_type b) then Rejected TypeError
          else Resolved (put (beat_type b) [page_number b] beatsByType)
      end
  end.

(** The body of [Object.entries(beatsByType).forEach]. *)
Definition averageBeat (entry : jsstring * list number) : jsstring * number :=
  let (type, pages_) := entry in
  (type,
   mathRound (fold_left (fun sum p => sum + p) pages_ 0 / ofNat (length pages_))).

(** [getBeatTiming(similarScripts)] *)
Definition getBeatTiming (db : database) (similarScripts : list script)
    : async (object number) :=
  if Nat.eqb (length similarScripts) 0 then ret getDefaultBeats
  else
    let scriptIds := List.map id similarScripts in
    match story_beats_in db scriptIds with
    | None => ret getDefaultBeats
    | Some rows =>
        if Nat.eqb (length rows) 0 then ret getDefaultBeats
        else
          match fold_left groupBeat rows (Resolved []) with
          | Rejected e => fun this => (Rejected e, this)
          | Resolved beatsByType => ret (List.map averageBeat beatsByType)
          end
    end.

(** The two constants of [predictSuccess]: [avgRating], and [probability]
    before it is rounded for the report. *)
Definition avgRatingOf (similarScripts : list script) : number :=
  fold_left (fun sum s => sum + imdb_rating s) similarScripts 0
  / ofNat (length similarScripts).

Definition probabilityOf (similarScripts : list script) : number :=
  mathMin 0.95 (avgRatingOf similarScripts / 10).

(** [predictSuccess(similarScripts, genre)] *)
Definition predictSuccess (similarScripts : list script)
    (genre : option jsstring) : async prediction :=
  if Nat.eqb (length similarScripts) 0 then
    ret (Prediction 0.65 (lit "medium")
           (plain "Based on general patterns (no similar scripts in database)")
           None)
  else
    let avgRating := avgRatingOf similarScripts in
    let probability := probabilityOf similarScripts in
    ret (Prediction
           (mathRound (probability * 100) / 100)
           (if 0.75 <? probability then lit "high"
            else if 0.65 <? probability then lit "medium"
            else lit "low")
           [Str (lit "Based on "); Num (ofNat (length similarScripts));
            Str (lit " similar successful "); Val genre;
            Str (lit " scripts (avg rating: "); Fixed 1 avgRating;
            Str (lit ")")]
           (Some (List.map
                    (fun s => Comparable (title s) (imdb_rating s) (year s))
                    (firstn 3 similarScripts)))).

(** [generateRecommendations(similarScripts, structure)] *)
Definition generateRecommendations (similarScripts : list script)
    (st : structure) : recommendations :=
  let paid :=
    filter (fun s => match box_office s with
                     | Some b => truthy b
                     | None => false
                     end) similarScripts in
  let avgBoxOffice :=
    fold_left (fun sum s => sum + orDefault (box_office s) 0) paid 0
    / ofNat (length paid) in
  Recommendations
    [Num (totalPages st); Str (lit " pages (optimal for this genre)")]
    (lit "Follow the beat timing closely for maximum impact")
    (lit "8-12 distinct characters (protagonist + supporting cast)")
    (lit "Keep dialogue concise: 6-9 words per line average")
    (if (0 <? length similarScripts)%nat && (0 <? avgBoxOffice)
     then Some (if 100000000 <? avgBoxOffice
                then lit "$40-80M (theatrical tentpole)"
                else if 50000000 <? avgBoxOffice
                     then lit "$20-40M (mid-budget theatrical)"
                     else lit "$5-20M (indie/streaming)")
     else None).

(** [beats[key] || fallback] *)
Definition beatPage (beats_ : object number) (key : string)
    (fallback : number) : pageOf :=
  Page (orDefault (own (lit key) beats_) fallback).

(** [`${a}-${b}`] *)
Definition span (a b : number) : text := [Num a; Str (lit "-"); Num b].

(** The override applied when [targetLength] is truthy. *)
Definition withTarget (targetLength : option number) (st : structure)
    : structure :=
  match targetLength with
  | Some t =>
      if truthy t
      then Structure t (mathRound (t * 0.25)) (mathRound (t * 0.50))
                     (mathRound (t * 0.75)) t
      else st
  | None => st
  end.

(** [generateOutline(premise, genre, targetLength = null)] *)
Definition generateOutline (db : database) (premise genre : option jsstring)
    (targetLength : option number) : async outline :=
  await _ <- (fun this =>
                match patterns this with
                | None => loadPatterns db this
                | Some _ => ret tt this
                end) ;;
  await similarScripts <- findSimilarScripts db genre 10 ;;
  await structure0 <- calculateOptimalStructure similarScripts ;;
  await beats_ <- getBeatTiming db similarScripts ;;
  let st := withTarget targetLength structure0 in
  await prediction_ <- predictSuccess similarScripts genre ;;
  ret (Outline premise genre st
    (Act (lit "ACT 1: SETUP")
       [Str (lit "1-"); Num (act1End st)]
       [ OutlineBeat (lit "Opening Image") (beatPage beats_ "Opening Image" 1);
         OutlineBeat (lit "Theme Stated") (Page 5);
         OutlineBeat (lit "Setup") (Pages (plain "1-10"));
         OutlineBeat (lit "Inciting Incident")
                     (beatPage beats_ "Inciting Incident" 12);
         OutlineBeat (lit "Debate") (Pages (plain "12-25"));
         OutlineBeat (lit "Break into Two")
                     (beatPage beats_ "End of Act 1" (act1End st)) ])
    (Act (lit "ACT 2A: CONFRONTATION")
       (span (act1End st + 1) (act2aMidpoint st))
       [ OutlineBeat (lit "B Story Begins") (Page (act1End st + 5));
         OutlineBeat (lit "Fun and Games")
                     (Pages (span (act1End st + 10) (act2aMidpoint st - 5)));
         OutlineBeat (lit "Midpoint")
                     (beatPage beats_ "Midpoint" (act2aMidpoint st)) ])
    (Act (lit "ACT 2B: COMPLICATIONS")
       (span (act2aMidpoint st + 1) (act2bEnd st))
       [ OutlineBeat (lit "Bad Guys Close In")
                     (Pages (span (act2aMidpoint st + 5) (act2bEnd st - 15)));
         OutlineBeat (lit "All Is Lost")
                     (beatPage beats_ "All Is Lost" (act2bEnd st - 15));
         OutlineBeat (lit "Dark Night of the Soul")
                     (Pages (span (act2bEnd st - 10) (act2bEnd st - 5)));
         OutlineBeat (lit "Break into Three") (Page (act2bEnd st)) ])
    (Act (lit "ACT 3: RESOLUTION")
       (span (act2bEnd st + 1) (act3End st))
       [ OutlineBeat (lit "Finale")
                     (Pages (span (act2bEnd st + 1) (act3End st - 5)));
         OutlineBeat (lit "Climax")
                     (beatPage beats_ "Climax" (act3End st - 10));
         OutlineBeat (lit "Final Image")
                     (beatPage beats_ "Resolution" (act3End st)) ])
    prediction_
    (generateRecommendations similarScripts st)).

End Generator.

(* ================================================================== *)
(** * AdvancedScriptParser: the character registry and beat timing      *)
(* ================================================================== *)

Module Analysis.
Import JS Parser.

(** A statement either completes with a value or throws. *)
Inductive completion (A : Type) : Type :=
| Normal (a : A)
| Throw (e : Generator.exn).
Arguments Normal {A} a.
Arguments Throw {A} e.

(** ** extractCharacters *)

(** An entry of the registry; [dialogue_samples] is created empty and never
    written. *)
Record character : Type := Character {
  name : jsstring;
  first_appearance : nat;
  scenes_in : list nat;
  total_lines : nat;
  dialogue_samples : list jsstring
}.

(** [characterMap], a [Map] keyed by strings: entries in insertion order;
    [has] and [get] are [Generator.own], [set] is [Generator.put], which
    keeps the place of a key that is present. *)
Definition characterMap : Type := Generator.object character.

(** The body of [scene.characters_present.forEach]. *)
Definition visit (scene_ : scene) (map : characterMap) (charName : jsstring)
    : characterMap :=
  let map1 :=
    match Generator.own charName map with
    | Some _ => map
    | None =>
        Generator.put charName
          (Character charName (page_start scene_) [] 0 []) map
    end in
  match Generator.own charName map1 with
  | Some char_ =>
      Generator.put charName
        (Character (name char_) (first_appearance char_)
           (scenes_in char_ ++ [scene_number scene_])
           (total_lines char_ + length (dialogue_lines scene_))
           (dialogue_samples char_)) map1
  | None => map1
  end.

(** The body of [scenes.forEach]. *)
Definition visitScene (map : characterMap) (scene_ : scene) : characterMap :=
  fold_left (visit scene_) (characters_present scene_) map.

(** [(a, b) => b.total_lines - a.total_lines] *)
Definition byLines (a b : character) : Z :=
  (Z.of_nat (total_lines b) - Z.of_nat (total_lines a))%Z.

(** [extractCharacters(scenes)] *)
Definition extractCharacters (scenes : list scene) : list character :=
  let characterMap := fold_left visitScene scenes [] in
  sortBy byLines (List.map snd characterMap).

(** ** checkBeatTiming *)

(** [standards] *)
Definition standards : Generator.object (nat * nat) :=
  [ (lit "Inciting Incident", (10, 15));
    (lit "End of Act 1", (25, 30));
    (lit "Midpoint", (55, 65));
    (lit "Climax", (90, 100)) ]%nat.

(** The counters [accurate] and [total]. *)
Record tally : Type := Tally {
  accurate : nat;
  total : nat
}.

(** The body of [beats.forEach].  A beat type that names a member of
    [Object.prototype] finds a truthy value that is not iterable, and the
    destructuring throws. *)
Definition checkBeat (acc : completion tally) (b : beat) : completion tally :=
  match acc with
  | Throw e => Throw e
  | Normal t =>
      match Generator.own (beat_type b) standards with
      | Some (min, max) =>
          Normal (Tally
                    (if (min <=? page_number b)%nat && (page_number b <=? max)%nat
                     then S (accurate t) else accurate t)
                    (S (total t)))
      | None =>
          if Generator.inherited (beat_type b) then Throw Generator.TypeError
          else Normal t
      end
  end.

(** [checkBeatTiming(beats)] *)
Definition checkBeatTiming (beats : list beat) : completion Q :=
  match fold_left checkBeat beats (Normal (Tally 0 0)) with
  | Throw e => Throw e
  | Normal t =>
      Normal (if (0 <? total t)%nat
              then inject_Z (Z.of_nat (accurate t))
                   / inject_Z (Z.of_nat (total t)) * 100
              else 0)
  end.

End Analysis.


(* ================================================================== *)
(** * BatchParser                                                       *)
(* ================================================================== *)

Module Batch.
Import JS.
Local Open Scope nat_scope.

(** [this]: the three counters (the parser it holds has no state). *)
Record batchParser : Type := BatchParser {
  successCount : nat;
  failCount : nat;
  skippedCount : nat
}.

(** [new BatchParser()] *)
Definition constructor : batchParser := BatchParser 0 0 0.

(** A row of [scripts] as the batch parser selects it. *)
Record scriptRow : Type := ScriptRow {
  id : jsstring;
  title : jsstring
}.

(** The answer [{ data, error }] of the query for the scripts. *)
Inductive answer : Type :=
| Failed
| Data (rows : option (list scriptRow)).

(** How [parser.parseAndSave(script.id)] settles: with a parse result, with
    [null], or rejected. *)
Inductive settled : Type :=
| Result
| Null
| Threw.

(** What a run sees of the database and of the parser.  The second and
    third depend on the iteration, as the database changes while the
    scripts are parsed. *)
Record world : Type := World {
  (** [from('scripts').select('id, title, processed').order(...)] *)
  all_scripts : answer;
  (** [existingScenes && existingScenes.length > 0] for the script read at
      iteration [i] *)
  has_scenes : nat -> scriptRow -> bool;
  (** [await this.parser.parseAndSave(script.id)] at iteration [i] *)
  parseAndSave : nat -> scriptRow -> settled
}.

(** The body of the [for] loop. *)
Definition process (w : world) (scripts : list scriptRow)
    (this : batchParser) (i : nat) : batchParser :=
  match nth_error scripts i with
  | None => this
  | Some script =>
      if has_scenes w i script
      then BatchParser (successCount this) (failCount this)
                       (S (skippedCount this))
      else
        match parseAndSave w i script with
        | Result => BatchParser (S (successCount this)) (failCount this)
                                (skippedCount this)
        | Null | Threw =>
            BatchParser (successCount this) (S (failCount this))
                        (skippedCount this)
        end
  end.

(** [parseAllScripts()], as far as the counters go. *)
Definition parseAllScripts (w : world) (this : batchParser) : batchParser :=
  match all_scripts w with
  | Failed => this
  | Data None => this
  | Data (Some scripts) =>
      if Nat.eqb (length scripts) 0 then this
      else fold_left (process w scripts) (seq 0 (length scripts)) this
  end.

(** [successCount + failCount + skippedCount], the total of [printReport]. *)
Definition totalProcessed (this : batchParser) : nat :=
  successCount this + failCount this + skippedCount this.

End Batch.
(* ================================================================== *)
(** * The words of the specification                                    *)
(* ================================================================== *)

Module Spec.
Import JS Parser.
Local Open Scope nat_scope.

(** "a trimmed line starting with INT. or EXT., case-insensitive" *)
Fixpoint startsWith (ignoreCase : bool) (prefix s : jsstring) : bool :=
  match prefix, s with
  | [], _ => true
  | c :: prefix', x :: s' =>
      sameChar ignoreCase c x && startsWith ignoreCase prefix' s'
  | _ :: _, [] => false
  end.

Definition isSceneHeader (raw : jsstring) : bool :=
  startsWith true (lit "INT.") (trim raw) || startsWith true (lit "EXT.") (trim raw).

(** "the scene with the highest dialogue-line count (ties broken by scan
    order - first encountered wins)": every candidate scanned before the
    anchor has fewer dialogue lines, none scanned after it has more. *)
Definition isAnchor (a : scene) (candidates : list scene) : Prop :=
  exists earlier later,
    candidates = earlier ++ a :: later
    /\ Forall (fun c => length (dialogue_lines c) < length (dialogue_lines a))
              earlier
    /\ Forall (fun c => length (dialogue_lines c) <= length (dialogue_lines a))
              later.

(** "first-match priority": an ordered list of rules, evaluated top to
    bottom, with a label for the text no rule matches. *)
Fixpoint firstMatch (rules : list ((jsstring -> bool) * jsstring))
    (otherwise : jsstring) (text : jsstring) : jsstring :=
  match rules with
  | (cue, label) :: rules' =>
      if cue text then label else firstMatch rules' otherwise text
  | [] => otherwise
  end.

(** The closed set of tone labels, in priority order. *)
Definition tones : list jsstring :=
  List.map lit [ "intense"; "questioning"; "hesitant"; "aggressive"; "tender";
                 "humorous"; "neutral" ]%string.

(** The cues of the six rules, in the order the specification lists them. *)
Definition toneRules (toLowerCase : jsstring -> jsstring)
    : list ((jsstring -> bool) * jsstring) :=
  [ (fun t => test intenseRe1 t || test intenseRe2 t, lit "intense");
    (fun t => test questionRe t, lit "questioning");
    (fun t => test hesitantRe t, lit "hesitant");
    (fun t => test aggressiveRe t, lit "aggressive");
    (fun t => test tenderRe (toLowerCase t), lit "tender");
    (fun t => test humorousRe (toLowerCase t), lit "humorous") ].

(** "55-65% of total length, expressed as absolute page numbers computed
    from total estimated pages": page [p] is, within a page either way, in
    the stretch from [lo]% to [hi]% of a script of [total] pages. *)
Definition inScaledWindow (lo hi total p : nat) : Prop :=
  lo * total <= 100 * (p + 1) /\ 100 * p <= hi * total + 100.

Definition exclamation : char := 33%N.
Definition questionMark : char := 63%N.

(** "an absent or empty premise, or an absent or empty genre" *)
Definition missing (v : option jsstring) : Prop := v = None \/ v = Some [].

(** "no genre comparables exist": the query for the genre returns no row. *)
Definition noComparables (db : Generator.database) (genre : option jsstring)
    : Prop :=
  match Generator.scripts_like db genre 10 with
  | None => True
  | Some scripts => scripts = []
  end.

(** The story-beat rows of the database are keyed by names that are not
    members of [Object.prototype], as the rows the parser saves are. *)
Definition plainBeatTypes (db : Generator.database) : Prop :=
  forall ids rows,
    Generator.story_beats_in db ids = Some rows ->
    Forall (fun r => Generator.inherited (Generator.beat_type r) = false) rows.

End Spec.

(* ================================================================== *)
(** * Invariants of the scan of [extractScenes]                         *)
(* ================================================================== *)

Module Invariants.
Import JS Parser.
Local Open Scope nat_scope.

(** The scenes a scan accounts for: those pushed and the open one. *)
Definition seen (st : scan) : nat := length (pushCurrent st).

(** A pushed scene has its [page_end], not before its [page_start]. *)
Definition closed (sc : scene) : Prop :=
  exists e, page_end sc = Some e /\ page_start sc <= e.

(** The invariant of the scan: pushed scenes are closed, and the open scene
    did not start after the current page. *)
Definition pagesOk (st : scan) : Prop :=
  Forall closed (scenes st)
  /\ forall sc, currentScene st = Some sc -> page_start sc <= pageCount st.

End Invariants.

(* ================================================================== *)
(** * Scripts and databases the properties are tried on                 *)
(* ================================================================== *)

Module Inputs.
Import JS Parser.
Local Open Scope nat_scope.

(** The lines of a script, joined by line feeds. *)
Fixpoint unlines (ls : list string) : jsstring :=
  match ls with
  | [] => []
  | [l] => lit l
  | l :: ls' => lit l ++ newline :: unlines ls'
  end.

(** A cue followed by a speech of two lines. *)
Definition twoLineSpeech : jsstring :=
  unlines [ "INT. ROOM - DAY"; "JOHN"; "Hello there"; "How are you" ]%string.

(** A script of 3242 lines, 55 pages, whose last line opens its one scene. *)
Definition lateScene : jsstring := repeat newline 3241 ++ lit "INT. A - DAY".

(** The scene [extractScenes] returns for [twoLineSpeech]. *)
Definition roomScene : scene :=
  Scene 1 (lit "INT.") (lit "ROOM") (lit "DAY") 0 (Some 1)
        (unlines [ "INT. ROOM - DAY"; "JOHN"; "Hello there"; "How are you"; "" ]%string)
        [lit "Hello there"]
        [lit "INT. ROOM - DAY"; lit "How are you"]
        [lit "JOHN"]
        (Some (1 # 4)).

(** Three scenes that start in the window of the Midpoint, with one, two
    and two lines of dialogue, and a fourth that starts after it. *)
Definition sceneAt (number page dialogueCount : nat) : scene :=
  Scene number (lit "INT.") (lit "UNKNOWN") (lit "DAY") page (Some page) []
        (repeat (lit "line") dialogueCount) [] [] None.

Definition midpointScenes : list scene :=
  [sceneAt 1 55 1; sceneAt 2 60 2; sceneAt 3 65 2; sceneAt 4 66 9].

Definition midpoint : template := Template (lit "Midpoint") (55, 65).

(** A database without a row. *)
Definition emptyDatabase : Generator.database :=
  Generator.Database None (fun _ _ => None) (fun _ => None).

(** Three comparables rated 8.0, 7.5 and 7.4. *)
Definition rated (rating : Generator.number) : Generator.script :=
  Generator.Script (lit "id") (lit "title") None None None rating.

Definition threeComparables : list Generator.script :=
  [rated 8.0; rated 7.5; rated 7.4]%float.

End Inputs.

(* ================================================================== *)
(** * Notions used to state further properties                          *)
(* ================================================================== *)

Module Notions.
Import JS Parser.
Local Open Scope nat_scope.

(** The state of the scan of [extractScenes] after the lines of index
    below [k]. *)
Definition scanTo (lines : list jsstring) (k : nat) : scan :=
  fold_left (step lines) (seq 0 k) scan0.

(** The line of index [i] is a scene header. *)
Definition headerAt (lines : list jsstring) (i : nat) : bool :=
  Spec.isSceneHeader (nth i lines []).

(** The indices below [k] of the scene headers, in order. *)
Definition headerIndices (lines : list jsstring) (k : nat) : list nat :=
  filter (headerAt lines) (seq 0 k).

(** The value of [pageCount] when the line of index [i] is read: the
    number of indices below [i] that are multiples of 60. *)
Definition pageAt (i : nat) : nat := (i + 59) / 60.

(** The lines of the input from the first scene header on. *)
Fixpoint fromFirstHeader (lines : list jsstring) : list jsstring :=
  match lines with
  | [] => []
  | l :: ls => if Spec.isSceneHeader l then lines else fromFirstHeader ls
  end.

(** Lines, each followed by a line feed. *)
Definition joinLines (ls : list jsstring) : jsstring :=
  flat_map (fun l => l ++ [newline]) ls.

(** The lines of a scene as [extractDialogue] reads them back from
    [content], without the empty piece after the last line feed. *)
Definition sceneLines (sc : scene) : list jsstring :=
  removelast (split newline (content sc)).

(** A line as [extractScenes] stores it: trimmed, and without line feed. *)
Definition clean (l : jsstring) : Prop := ~ In newline l /\ trim l = l.

(** The line is a cue, and short enough to name a character. *)
Definition shortCue (l : jsstring) : bool :=
  test cueRe l && (length l <? 30).

(** The line is neither a cue nor empty: it is dialogue or action. *)
Definition classified (l : jsstring) : bool :=
  negb (test cueRe l) && (0 <? length l).

(** The names a list of lines adds to [characters_present]. *)
Definition present (ls : list jsstring) : list jsstring :=
  fold_left (fun acc l => setAdd l acc) (filter shortCue ls) [].

(** The lines of the input before the first scene header. *)
Fixpoint toFirstHeader (lines : list jsstring) : list jsstring :=
  match lines with
  | [] => []
  | l :: ls => if Spec.isSceneHeader l then [] else l :: toFirstHeader ls
  end.

(** The lines of [ls] that come directly after a cue and are neither a cue
    nor empty; [prev] is the line before the first of [ls]. *)
Fixpoint spoken (prev : jsstring) (ls : list jsstring) : list jsstring :=
  match ls with
  | [] => []
  | l :: ls' =>
      (if classified l && test cueRe prev then [l] else []) ++ spoken l ls'
  end.

(** The lines of [ls] that do not come after a cue and are neither a cue
    nor empty. *)
Fixpoint acted (prev : jsstring) (ls : list jsstring) : list jsstring :=
  match ls with
  | [] => []
  | l :: ls' =>
      (if classified l && negb (test cueRe prev) then [l] else [])
      ++ acted l ls'
  end.

(** [f] on each group of lines in turn, the line before a group being the
    last line of the group before it. *)
Fixpoint chain (f : jsstring -> list jsstring -> list jsstring)
    (prev : jsstring) (cs : list (list jsstring)) : list (list jsstring) :=
  match cs with
  | [] => []
  | c :: cs' => f prev c :: chain f (last c prev) cs'
  end.

(** A scene holds the lines [ls], read after the line [prev]. *)
Definition holds (prev : jsstring) (ls : list jsstring) (sc : scene) : Prop :=
  content sc = joinLines ls
  /\ Forall clean ls
  /\ dialogue_lines sc = spoken prev ls
  /\ action_lines sc = acted prev ls
  /\ characters_present sc = present ls.

(** The scenes hold the groups of lines [cs], one after the other. *)
Fixpoint chained (prev : jsstring) (cs : list (list jsstring))
    (scs : list scene) : Prop :=
  match cs, scs with
  | [], [] => True
  | c :: cs', sc :: scs' => holds prev c sc /\ chained (last c prev) cs' scs'
  | _, _ => False
  end.

(** The lines start with a scene header and hold no other. *)
Definition headed (ls : list jsstring) : Prop :=
  exists h rest,
    ls = h :: rest /\ test headerRe h = true
    /\ Forall (fun l => test headerRe l = false) rest.

(** What the scan of [extractScenes] has laid out after [k] lines: the
    pushed scenes hold the groups of lines [cs], the open scene holds [co],
    and put end to end these are the lines read since the first header. *)
Definition laid (lines : list jsstring) (k : nat) (st : scan) : Prop :=
  exists (cs : list (list jsstring)) (co : option (list jsstring)),
    let p := last (List.map trim (toFirstHeader (firstn k lines))) [] in
    chained p cs (scenes st)
    /\ Forall headed cs
    /\ match currentScene st, co with
       | Some sc, Some c =>
           holds (last (concat cs) p) c sc /\ headed c
           /\ existsb Spec.isSceneHeader (firstn k lines) = true
       | None, None =>
           cs = [] /\ existsb Spec.isSceneHeader (firstn k lines) = false
       | _, _ => False
       end
    /\ concat cs ++ match co with Some c => c | None => [] end
       = List.map trim (fromFirstHeader (firstn k lines)).

(** The beat is of one of the four types [checkBeatTiming] has a standard
    for. *)
Definition standardBeat (b : beat) : bool :=
  match Generator.own (beat_type b) Analysis.standards with
  | Some _ => true
  | None => false
  end.

(** The appearances of character names in the scenes: one pair for each
    name of each [characters_present], in the order [extractCharacters]
    visits them. *)
Definition appearances (scenes : list scene) : list (scene * jsstring) :=
  flat_map (fun sc => List.map (pair sc) (characters_present sc)) scenes.

(** The appearances of the name [k]. *)
Definition appearancesOf (k : jsstring) (scenes : list scene)
    : list (scene * jsstring) :=
  filter (fun p => eqs (snd p) k) (appearances scenes).

(** The registry of [extractCharacters] after a list of appearances. *)
Definition registry (l : list (scene * jsstring)) : Analysis.characterMap :=
  fold_left (fun m p => Analysis.visit (fst p) m (snd p)) l [].

(** The entry the registry must hold for a name, given its appearances. *)
Definition entryOf (k : jsstring) (occ : list (scene * jsstring))
    : option Analysis.character :=
  match occ with
  | [] => None
  | p :: _ =>
      Some (Analysis.Character k (page_start (fst p))
              (List.map (fun q => scene_number (fst q)) occ)
              (list_sum (List.map (fun q => length (dialogue_lines (fst q))) occ))
              [])
  end.

(** A comparator that orders by decreasing [key]. *)
Definition descending (A : Type) (key : A -> nat) (a b : A) : Z :=
  (Z.of_nat (key b) - Z.of_nat (key a))%Z.

(** What the scan has built after [k] lines, in terms of the indices [H] of
    the headers among them. *)
Definition built (lines : list jsstring) (k : nat) (st : scan) : Prop :=
  let H := headerIndices lines k in
  pageCount st = pageAt k
  /\ sceneNumber st = length H
  /\ List.map scene_number (scenes st) = seq 1 (length H - 1)
  /\ List.map page_start (scenes st) = List.map pageAt (removelast H)
  /\ List.map page_end (scenes st) = List.map (fun i => Some (pageAt i)) (tl H)
  /\ match currentScene st with
     | None => H = []
     | Some sc =>
         H <> [] /\ scene_number sc = length H
         /\ page_start sc = pageAt (last H 0)
     end.

(** What the scan of the lines of one scene pushes. *)
Definition pushed (num : nat) (cur : option jsstring) (ls : list jsstring)
    (d : dialogueLine) : Prop :=
  d_scene_number d = num
  /\ (Some (d_character d) = cur
      \/ (In (d_character d) (List.map trim ls)
          /\ shortCue (d_character d) = true))
  /\ In (d_text d) (List.map trim ls)
  /\ shortCue (d_text d) = false
  /\ 0 < length (d_text d)
  /\ test directiveRe (d_text d) = false.

End Notions.

Module GeneratorNotions.
Import JS Generator.
Local Open Scope float_scope.

(** The pages of the rows of beat type [k], in the order of the rows. *)
Definition pagesOf (k : jsstring) (rows : list beatRow) : list number :=
  List.map page_number (filter (fun r => eqs (beat_type r) k) rows).

(** The rounded mean that [getBeatTiming] takes of a list of pages. *)
Definition mean (ps : list number) : number :=
  mathRound (fold_left (fun sum p => sum + p) ps 0 / ofNat (length ps)).

(** No key of the object names a member of [Object.prototype]. *)
Definition plainKeys (A : Type) (o : object A) : Prop :=
  forall k, inherited k = true -> own k o = None.



(** The script has no box office figure, or a figure of 0. *)
Definition unpaid (s : script) : bool :=
  match box_office s with
  | Some b => negb (truthy b)
  | None => true
  end.

(** The patterns after the first step of [generateOutline]. *)
Definition loaded (db : database) (this : generator) : generator :=
  GeneratorObject
    (Some match patterns this with
          | Some ps => ps
          | None => match learned_patterns db with
                    | Some ps => ps
                    | None => []
                    end
          end).

End GeneratorNotions.

(* ================================================================== *)
(** * Further inputs                                                    *)
(* ================================================================== *)

Module Samples.
Import JS.
Local Open Scope nat_scope.

(** A script whose first line is a scene header, with two speakers. *)
Definition kitchen : jsstring :=
  Inputs.unlines
    [ "INT. KITCHEN - DAY"; "ANNA"; "Is the tea ready?"; "BOB"; "Nearly.";
      "EXT. GARDEN - NIGHT"; "ANNA"; "It got cold." ]%string.

(** The entry of ANNA in the registry of that script. *)
Definition anna : Analysis.character :=
  Analysis.Character (lit "ANNA") 0 [1; 2] 3 [].

(** Rows of story beats of plain types. *)
Definition plainRows : list Generator.beatRow :=
  [ Generator.BeatRow (lit "Midpoint") 50%float;
    Generator.BeatRow (lit "Climax") 90%float;
    Generator.BeatRow (lit "Midpoint") 61%float ].

(** Rows of story beats, one of which is named as a member of
    [Object.prototype]. *)
Definition hazardRows : list Generator.beatRow :=
  [ Generator.BeatRow (lit "Midpoint") 50%float;
    Generator.BeatRow (lit "constructor") 1%float ].

(** A database with three comparables for every genre, and the given rows
    of story beats. *)
Definition beatsDatabase (ps : option (list Generator.pattern))
    (rows : list Generator.beatRow) : Generator.database :=
  Generator.Database ps (fun _ _ => Some Inputs.threeComparables)
    (fun _ => Some rows).

(** A run of the batch parser over three scripts: the first is skipped, the
    second parsed, the third fails. *)
Definition threeScripts : Batch.world :=
  Batch.World
    (Batch.Data (Some [ Batch.ScriptRow (lit "a") (lit "A");
                        Batch.ScriptRow (lit "b") (lit "B");
                        Batch.ScriptRow (lit "c") (lit "C") ]))
    (fun i _ => Nat.eqb i 0)
    (fun i _ => if Nat.eqb i 1 then Batch.Result else Batch.Threw).

End Samples.
(* ================================================================== *)
(** * Facts about the runtime                                           *)
(* ================================================================== *)

Module JSFacts.
Import JS.
Local Open Scope nat_scope.

(** [s.split(sep)] never returns the empty array. *)
Lemma split_nonempty (sep : char) (s : jsstring) : split sep s <> [].
Proof.
  destruct s as [|c s]; simpl; [discriminate|].
  destruct (N.eqb c sep); [discriminate|].
  destruct (split sep s); discriminate.
Qed.

(** A run of literal characters matches exactly a prefix of the input. *)
Lemma run_chars (ci : bool) (cs : jsstring) :
  forall (k : cont) (b a : list char) (c : list (nat * jsstring)),
    run (chars ci cs) k (MState b a c) =
    if Spec.startsWith ci cs a
    then k (MState (rev (firstn (length cs) a) ++ b) (skipn (length cs) a) c)
    else None.
Proof.
  induction cs as [|x cs IH]; intros k b a c; simpl.
  - reflexivity.
  - destruct a as [|y a]; simpl; [reflexivity|].
    destruct (sameChar ci x y); simpl; [|reflexivity].
    rewrite IH. rewrite <- app_assoc. reflexivity.
Qed.

(** A pattern anchored by [^] is only tried with success at index 0. *)
Lemma search_anchored (r : regex) :
  forall (a b : list char) (c : char),
    search (Seq Start r) (c :: b) a = None.
Proof.
  induction a as [|x a IH]; intros b c; simpl; [reflexivity|].
  apply IH.
Qed.

Lemma test_anchored (r : regex) (s : jsstring) :
  test (Seq Start r) s =
  match run r Some (MState [] s []) with Some _ => true | None => false end.
Proof.
  unfold test, exec. destruct s as [|c s]; simpl.
  - destruct (run r Some (MState [] [] [])); reflexivity.
  - rewrite search_anchored.
    destruct (run r Some (MState [] (c :: s) [])); reflexivity.
Qed.

(** [eqs] decides the equality of strings. *)
Lemma eqs_eq (a b : jsstring) : eqs a b = true <-> a = b.
Proof.
  revert b. induction a as [|x a IH]; intros [|y b]; simpl;
    try (split; [discriminate|discriminate]); [tauto|].
  rewrite andb_true_iff, N.eqb_eq, IH.
  split; [intros [-> ->]; reflexivity|intros [= -> ->]; split; reflexivity].
Qed.

Lemma eqs_refl (a : jsstring) : eqs a a = true.
Proof. apply eqs_eq. reflexivity. Qed.

Lemma eqs_neq (a b : jsstring) : a <> b -> eqs a b = false.
Proof.
  intros H. destruct (eqs a b) eqn:E; [|reflexivity].
  apply eqs_eq in E. contradiction.
Qed.

(** A greedy repetition whose minimum is reached cannot fail before a
    continuation that accepts. *)
Lemma manyGreedy_accepts (p : char -> bool) :
  forall (a b : list char) (c : list (nat * jsstring)),
    manyGreedy p Some 0 c b a <> None.
Proof.
  induction a as [|x a IH]; intros b c; simpl; [discriminate|].
  destruct (p x); [|discriminate].
  destruct (manyGreedy p Some 0 c (x :: b) a) eqn:E; simpl; [discriminate|].
  discriminate.
Qed.

(** [/c+/.test(s)] holds as soon as [s] contains a [c]. *)
Lemma test_some_char (p : char -> bool) (s : jsstring) :
  existsb p s = true -> test (Many true 1 p) s = true.
Proof.
  unfold test, exec. generalize (@nil char).
  induction s as [|x s IH]; intros b H; simpl in H; [discriminate|].
  simpl. destruct (p x) eqn:Px.
  - destruct (manyGreedy p Some 0 [] (x :: b) s) eqn:E.
    + reflexivity.
    + exfalso. exact (manyGreedy_accepts p s (x :: b) [] E).
  - simpl in H. simpl. apply IH. exact H.
Qed.

End JSFacts.

(* ================================================================== *)
(** * Properties of the parser                                          *)
(* ================================================================== *)

Module ParserSpec.
Import JS Parser Invariants.
Local Open Scope nat_scope.

(** ** Scene headers *)

(** [headerRe] accepts exactly the lines that start with INT. or EXT.,
    whatever the case of the letters. *)
Lemma test_headerRe (line : jsstring) :
  test headerRe line =
  Spec.startsWith true (lit "INT.") line || Spec.startsWith true (lit "EXT.") line.
Proof.
  unfold headerRe, seqs, alts. rewrite JSFacts.test_anchored.
  cbn [run]. unfold stri. rewrite !JSFacts.run_chars.
  destruct (Spec.startsWith true (lit "INT.") line),
           (Spec.startsWith true (lit "EXT.") line); reflexivity.
Qed.

(** ** Reading a list back through its indices *)

Lemma map_nth_seq (A : Type) (d : A) (l : list A) :
  List.map (fun i => nth i l d) (seq 0 (length l)) = l.
Proof.
  induction l as [|x l IH]; simpl; [reflexivity|].
  f_equal. rewrite <- seq_shift, map_map. exact IH.
Qed.

Lemma filter_map_length (A B : Type) (f : B -> bool) (g : A -> B) (l : list A) :
  length (filter f (List.map g l)) = length (filter (fun x => f (g x)) l).
Proof.
  induction l as [|x l IH]; simpl; [reflexivity|].
  destruct (f (g x)); simpl; rewrite IH; reflexivity.
Qed.

(** ** The scan of [extractScenes] *)

(** The cases of one iteration: header or not, a scene open or not, a page
    boundary or not; the fields of the resulting state are computed. *)
Ltac step_cases lines st i :=
  unfold step;
  destruct (test headerRe (trim (nth i lines [])));
  destruct (currentScene st) as [?sc|] eqn:?Hcur;
  destruct (i mod 60 =? 0);
  unfold pushCurrent, pagesOk;
  cbn [currentScene scenes sceneNumber pageCount];
  rewrite ?Hcur;
  cbn [currentScene scenes sceneNumber pageCount].

(** An iteration adds one scene at a header, and none elsewhere. *)
Lemma step_seen (lines : list jsstring) (st : scan) (i : nat) :
  seen (step lines st i) =
  seen st + (if test headerRe (trim (nth i lines [])) then 1 else 0).
Proof.
  unfold seen. step_cases lines st i; rewrite ?length_app; simpl; lia.
Qed.

Lemma fold_seen (lines : list jsstring) (idx : list nat) :
  forall st,
    seen (fold_left (step lines) idx st) =
    seen st
    + length (filter (fun i => test headerRe (trim (nth i lines []))) idx).
Proof.
  induction idx as [|i idx IH]; intros st; simpl; [lia|].
  rewrite IH, step_seen.
  destruct (test headerRe (trim (nth i lines []))); simpl; lia.
Qed.

(** C3: the number of scenes [extractScenes] returns is the number of
    lines of the input that, once trimmed, start with INT. or EXT. in any
    case; the scene still open at the end of the input is among them. *)
Theorem extractScenes_count (text : jsstring) :
  length (extractScenes text) =
  length (filter Spec.isSceneHeader (split newline text)).
Proof.
  unfold extractScenes. rewrite length_map.
  change (length (pushCurrent (scanLines (split newline text))))
    with (seen (scanLines (split newline text))).
  unfold scanLines. rewrite fold_seen.
  change (seen scan0) with 0. simpl Nat.add.
  set (lines := split newline text).
  transitivity (length (filter Spec.isSceneHeader
                          (List.map (fun i => nth i lines []) (seq 0 (length lines))))).
  - rewrite filter_map_length. f_equal. apply filter_ext. intros i.
    unfold Spec.isSceneHeader. apply test_headerRe.
  - rewrite map_nth_seq. reflexivity.
Qed.

(** ** Page ranges *)

Lemma pushCurrent_closed (st : scan) :
  pagesOk st -> Forall closed (pushCurrent st).
Proof.
  intros [Hs Hc]. unfold pushCurrent.
  destruct (currentScene st) as [sc|]; [|exact Hs].
  apply Forall_app. split; [exact Hs|].
  constructor; [|constructor].
  exists (pageCount st). split; [reflexivity|]. cbn. apply Hc. reflexivity.
Qed.

Lemma step_pagesOk (lines : list jsstring) (st : scan) (i : nat) :
  pagesOk st -> pagesOk (step lines st i).
Proof.
  intros H. pose proof (pushCurrent_closed H) as Hp. destruct H as [Hs Hc].
  revert Hp.
  step_cases lines st i; intros Hp;
    (split; [assumption|]);
    intros sc' [= <-]; cbn; try lia;
    specialize (Hc sc eq_refl); lia.
Qed.

Lemma fold_pagesOk (lines : list jsstring) (idx : list nat) :
  forall st, pagesOk st -> pagesOk (fold_left (step lines) idx st).
Proof.
  induction idx as [|i idx IH]; intros st H; simpl; [exact H|].
  apply IH, step_pagesOk, H.
Qed.

Lemma scan0_pagesOk : pagesOk scan0.
Proof. split; [constructor|]. intros sc [=]. Qed.

(** Every scene returned is the finished form of a closed scene. *)
Lemma extractScenes_finished (text : jsstring) (sc : scene) :
  In sc (extractScenes text) ->
  exists sc0, sc = finishScene sc0 /\ closed sc0.
Proof.
  unfold extractScenes. intros H. apply in_map_iff in H.
  destruct H as [sc0 [<- H0]]. exists sc0. split; [reflexivity|].
  pose proof (pushCurrent_closed
                (fold_pagesOk (split newline text)
                   (seq 0 (length (split newline text))) scan0_pagesOk)) as Hp.
  rewrite Forall_forall in Hp. apply Hp. exact H0.
Qed.

(** C9: every scene [extractScenes] returns has a [page_end], and its
    [page_start] is at most its [page_end]. *)
Theorem page_start_le_page_end (text : jsstring) (sc : scene) :
  In sc (extractScenes text) ->
  exists e, page_end sc = Some e /\ page_start sc <= e.
Proof.
  intros H. destruct (extractScenes_finished text sc H) as [sc0 [-> Hc]].
  exact Hc.
Qed.

(** ** The dialogue ratio *)

Lemma quotient_bounds (d a : nat) :
  (0 <= inject_Z (Z.of_nat d) / inject_Z (Z.of_nat (d + a + 1)))%Q
  /\ (inject_Z (Z.of_nat d) / inject_Z (Z.of_nat (d + a + 1)) < 1)%Q.
Proof.
  assert (Hpos : (0 < inject_Z (Z.of_nat (d + a + 1)))%Q).
  { change 0%Q with (inject_Z 0). rewrite <- Zlt_Qlt. lia. }
  split.
  - apply Qle_shift_div_l; [exact Hpos|].
    rewrite Qmult_0_l. change 0%Q with (inject_Z 0). rewrite <- Zle_Qle. lia.
  - apply Qlt_shift_div_r; [exact Hpos|].
    rewrite Qmult_1_l. rewrite <- Zlt_Qlt. lia.
Qed.

(** C8: every scene [extractScenes] returns carries the ratio
    dialogue_lines / (dialogue_lines + action_lines + 1) of its own line
    counts, and that ratio is at least 0 and strictly below 1. *)
Theorem dialogue_ratio_range (text : jsstring) (sc : scene) :
  In sc (extractScenes text) ->
  exists r : Q,
    dialogue_ratio sc = Some r
    /\ r = (inject_Z (Z.of_nat (length (dialogue_lines sc)))
            / inject_Z (Z.of_nat (length (dialogue_lines sc)
                                  + length (action_lines sc) + 1)))%Q
    /\ (0 <= r)%Q /\ (r < 1)%Q.
Proof.
  intros H. destruct (extractScenes_finished text sc H) as [sc0 [-> _]].
  exists (ratio sc0). split; [reflexivity|]. split; [reflexivity|].
  apply quotient_bounds.
Qed.

(** ** Beats *)

(** The stable sort by decreasing dialogue count puts first the candidate
    the specification calls the anchor. *)
Lemma sortBy_anchor (candidates : list scene) :
  candidates <> [] ->
  exists a rest,
    sortBy byDialogue candidates = a :: rest /\ Spec.isAnchor a candidates.
Proof.
  induction candidates as [|c cs IH]; intros Hne; [contradiction|].
  destruct cs as [|c' cs'].
  - exists c, []. split; [reflexivity|].
    exists [], []. repeat split; constructor.
  - destruct IH as [a [rest [Hs Ha]]]; [discriminate|].
    change (sortBy byDialogue (c :: c' :: cs'))
      with (insertBy byDialogue c (sortBy byDialogue (c' :: cs'))).
    rewrite Hs. simpl insertBy.
    destruct Ha as [earlier [later [Heq [He Hl]]]].
    destruct (byDialogue c a <=? 0)%Z eqn:E.
    + apply Z.leb_le in E. unfold byDialogue in E.
      exists c, (a :: rest). split; [reflexivity|].
      exists [], (c' :: cs'). split; [reflexivity|]. split; [constructor|].
      rewrite Heq. apply Forall_app. split.
      * eapply Forall_impl; [|exact He]. cbn beta. intros x Hx. lia.
      * constructor; [lia|].
        eapply Forall_impl; [|exact Hl]. cbn beta. intros x Hx. lia.
    + apply Z.leb_gt in E. unfold byDialogue in E.
      exists a, (insertBy byDialogue c rest). split; [reflexivity|].
      exists (c :: earlier), later. split; [rewrite Heq; reflexivity|].
      split; [|exact Hl]. constructor; [lia|exact He].
Qed.

Lemma beatFor_none (scenes : list scene) (t : template) :
  filter (inRange t) scenes = [] -> beatFor scenes t = [].
Proof. unfold beatFor. intros ->. reflexivity. Qed.

Lemma beatFor_anchor (scenes : list scene) (t : template) :
  filter (inRange t) scenes <> [] ->
  exists a,
    Spec.isAnchor a (filter (inRange t) scenes)
    /\ beatFor scenes t =
       [Beat (name t) (page_start a) (scene_number a) (location a)
             (if 1 <? length (filter (inRange t) scenes)
              then 7 # 10 else 5 # 10)].
Proof.
  intros Hne. destruct (sortBy_anchor Hne) as [a [rest [Hs Ha]]].
  exists a. split; [exact Ha|].
  unfold beatFor. rewrite Hs.
  destruct (filter (inRange t) scenes) as [|c cs]; [contradiction|].
  reflexivity.
Qed.

(** A template pushes at most one beat, of its own name. *)
Lemma beatFor_named (scenes : list scene) (t : template) (n : jsstring) :
  filter (fun b => eqs (beat_type b) n) (beatFor scenes t) =
  if eqs (name t) n then beatFor scenes t else [].
Proof.
  unfold beatFor.
  destruct (0 <? length (filter (inRange t) scenes));
    [|destruct (eqs (name t) n); reflexivity].
  destruct (sortBy byDialogue (filter (inRange t) scenes));
    [destruct (eqs (name t) n); reflexivity|].
  simpl. destruct (eqs (name t) n); reflexivity.
Qed.

Lemma beats_of_other_names (scenes : list scene) (n : jsstring)
    (ts : list template) :
  ~ In n (List.map name ts) ->
  filter (fun b => eqs (beat_type b) n) (flat_map (beatFor scenes) ts) = [].
Proof.
  induction ts as [|t ts IH]; intros H; simpl; [reflexivity|].
  rewrite filter_app, beatFor_named, IH.
  - rewrite JSFacts.eqs_neq; [reflexivity|].
    intros E. apply H. left. exact E.
  - intros E. apply H. right. exact E.
Qed.

Lemma beats_of_name (scenes : list scene) (t : template) (ts : list template) :
  NoDup (List.map name ts) -> In t ts ->
  filter (fun b => eqs (beat_type b) (name t)) (flat_map (beatFor scenes) ts) =
  beatFor scenes t.
Proof.
  induction ts as [|t' ts IH]; intros Hnd Hin; [contradiction|].
  simpl in Hnd. inversion Hnd as [|? ? Hnot Hnd']; subst.
  simpl. rewrite filter_app, beatFor_named.
  destruct Hin as [-> | Hin].
  - rewrite JSFacts.eqs_refl, beats_of_other_names by exact Hnot.
    apply app_nil_r.
  - rewrite JSFacts.eqs_neq, IH by
      (try assumption; intros E; apply Hnot; rewrite E; apply in_map; exact Hin).
    reflexivity.
Qed.

Lemma beatTemplates_names : NoDup (List.map name beatTemplates).
Proof.
  vm_compute.
  repeat (constructor; [simpl; intuition discriminate|]).
  constructor.
Qed.

(** C6: for each of the seven templates, the beats of its name that
    [identifyBeats] returns are: none, when no scene has its [page_start] in
    the window; otherwise exactly one, read off the candidate with the most
    dialogue lines, the first scanned among equals, with confidence 0.7 when
    the window held more than one candidate and 0.5 when it held one. *)
Theorem identifyBeats_anchor (scenes : list scene) (fullText : jsstring)
    (t : template) :
  In t beatTemplates ->
  let candidates := filter (inRange t) scenes in
  let found :=
    filter (fun b => eqs (beat_type b) (name t)) (identifyBeats scenes fullText) in
  (candidates = [] -> found = [])
  /\ (candidates <> [] ->
      exists a,
        Spec.isAnchor a candidates
        /\ found =
           [Beat (name t) (page_start a) (scene_number a) (location a)
                 (if 1 <? length candidates then 7 # 10 else 5 # 10)]).
Proof.
  intros Hin candidates found.
  assert (Hfound : found = beatFor scenes t).
  { unfold found, identifyBeats.
    apply beats_of_name; [exact beatTemplates_names|exact Hin]. }
  rewrite Hfound. split.
  - apply beatFor_none.
  - apply beatFor_anchor.
Qed.

(** The scene a beat is read off starts in the window of the template. *)
Lemma beatFor_in_range (scenes : list scene) (t : template) (b : beat) :
  In b (beatFor scenes t) ->
  beat_type b = name t
  /\ fst (range t) <= page_number b <= snd (range t).
Proof.
  intros Hb.
  destruct (filter (inRange t) scenes) as [|c cs] eqn:Hf.
  - rewrite beatFor_none in Hb by exact Hf. contradiction.
  - destruct (@beatFor_anchor scenes t) as [a [Ha Hbeat]];
      [rewrite Hf; discriminate|].
    rewrite Hbeat in Hb. destruct Hb as [<- | []]. cbn.
    split; [reflexivity|].
    destruct Ha as [earlier [later [Heq _]]].
    assert (Hin : In a (filter (inRange t) scenes)).
    { rewrite Heq. apply in_or_app. right. left. reflexivity. }
    apply filter_In in Hin. destruct Hin as [_ Hr].
    unfold inRange in Hr. apply andb_true_iff in Hr. destruct Hr as [H1 H2].
    apply Nat.leb_le in H1. apply Nat.leb_le in H2. lia.
Qed.

(** C2, as the code has it: the seven windows are fixed page numbers.  The
    text of the script, from which [identifyBeats] computes a page total, has
    no influence on the beats; and every beat returned is read off a scene
    whose [page_start] lies between the two fixed bounds of its template. *)
Theorem identifyBeats_fixed_windows (scenes : list scene) (fullText : jsstring) :
  List.map range beatTemplates =
    [(1, 3); (10, 15); (25, 30); (55, 65); (75, 85); (90, 100); (105, 115)]
  /\ (forall otherText,
        identifyBeats scenes otherText = identifyBeats scenes fullText)
  /\ Forall (fun b => exists t,
                In t beatTemplates /\ beat_type b = name t
                /\ fst (range t) <= page_number b <= snd (range t))
            (identifyBeats scenes fullText).
Proof.
  split; [reflexivity|]. split; [reflexivity|].
  unfold identifyBeats. apply Forall_forall. intros b Hb.
  apply in_flat_map in Hb. destruct Hb as [t [Ht Hb]].
  exists t. split; [exact Ht|]. apply (beatFor_in_range scenes t b Hb).
Qed.

(** C2, as stated, fails: were the Midpoint window 55-65% of the length of
    the script, no scene on the last page of a 55-page script would be its
    Midpoint; [identifyBeats] makes it so. *)
Lemma identifyBeats_not_scaled :
  ~ (forall text b,
       In b (identifyBeats (extractScenes text) text) ->
       beat_type b = lit "Midpoint" ->
       Spec.inScaledWindow 55 65 (totalPagesOf text) (page_number b)).
Proof.
  intros H.
  assert (Hb : In (Beat (lit "Midpoint") 55 1 (lit "A") (5 # 10))
                  (identifyBeats (extractScenes Inputs.lateScene) Inputs.lateScene)).
  { vm_compute. left. reflexivity. }
  specialize (H Inputs.lateScene _ Hb eq_refl).
  assert (Ht : totalPagesOf Inputs.lateScene = 55) by (vm_compute; reflexivity).
  rewrite Ht in H. destruct H as [_ H]. cbn [page_number] in H. lia.
Qed.

(** ** Tones *)

Lemma detectTone_firstMatch (toLowerCase : jsstring -> jsstring)
    (text : jsstring) :
  detectTone toLowerCase text =
  Spec.firstMatch (Spec.toneRules toLowerCase) (lit "neutral") text.
Proof. reflexivity. Qed.

Lemma firstMatch_label (rules : list ((jsstring -> bool) * jsstring))
    (otherwise text : jsstring) :
  In (Spec.firstMatch rules otherwise text) (List.map snd rules ++ [otherwise]).
Proof.
  induction rules as [|[cue label] rules IH]; simpl; [left; reflexivity|].
  destruct (cue text); [left; reflexivity|right; exact IH].
Qed.

(** The first rule whose cue holds gives the label. *)
Lemma firstMatch_first (earlier later : list ((jsstring -> bool) * jsstring))
    (cue : jsstring -> bool) (label otherwise text : jsstring) :
  Forall (fun r => fst r text = false) earlier ->
  cue text = true ->
  Spec.firstMatch (earlier ++ (cue, label) :: later) otherwise text = label.
Proof.
  induction 1 as [|[c l] earlier Hc _ IH]; intros Hcue; simpl.
  - rewrite Hcue. reflexivity.
  - simpl in Hc. rewrite Hc. apply IH. exact Hcue.
Qed.

(** When an earlier cue holds, the label is that of an earlier rule. *)
Lemma firstMatch_earlier (earlier later : list ((jsstring -> bool) * jsstring))
    (otherwise text : jsstring) :
  Exists (fun r => fst r text = true) earlier ->
  In (Spec.firstMatch (earlier ++ later) otherwise text) (List.map snd earlier).
Proof.
  induction 1 as [[c l] earlier Hc|[c l] earlier _ IH]; simpl.
  - simpl in Hc. rewrite Hc. left. reflexivity.
  - destruct (c text); [left; reflexivity|right; exact IH].
Qed.

Lemma tones_distinct : NoDup Spec.tones.
Proof.
  vm_compute.
  repeat (constructor; [simpl; intuition discriminate|]).
  constructor.
Qed.

(** C7: [detectTone] returns one of the seven labels; the label is that of
    the first rule, in the order intense, questioning, hesitant, aggressive,
    tender, humorous, whose cue the text shows, and neutral when it shows
    none: a rule gives the label when its cue holds and no earlier cue does,
    and never when an earlier cue holds.  A text with an exclamation mark is
    intense, so that one with both an exclamation mark and a question mark
    is intense and not questioning. *)
Theorem detectTone_priority (toLowerCase : jsstring -> jsstring)
    (text : jsstring) :
  In (detectTone toLowerCase text) Spec.tones
  /\ detectTone toLowerCase text =
     Spec.firstMatch (Spec.toneRules toLowerCase) (lit "neutral") text
  /\ List.map snd (Spec.toneRules toLowerCase) ++ [lit "neutral"] = Spec.tones
  /\ (forall earlier cue label later,
        Spec.toneRules toLowerCase = earlier ++ (cue, label) :: later ->
        (Forall (fun r => fst r text = false) earlier -> cue text = true ->
         detectTone toLowerCase text = label)
        /\ (Exists (fun r => fst r text = true) earlier ->
            detectTone toLowerCase text <> label))
  /\ (In Spec.exclamation text ->
      detectTone toLowerCase text = lit "intense")
  /\ (In Spec.exclamation text -> In Spec.questionMark text ->
      detectTone toLowerCase text = lit "intense"
      /\ detectTone toLowerCase text <> lit "questioning").
Proof.
  assert (Hbang : In Spec.exclamation text ->
                  detectTone toLowerCase text = lit "intense").
  { intros H. unfold detectTone, intenseRe1.
    rewrite (JSFacts.test_some_char (N.eqb 33) text); [reflexivity|].
    apply existsb_exists. exists Spec.exclamation. split; [exact H|reflexivity]. }
  split; [|split; [|split; [|split; [|split]]]].
  - rewrite detectTone_firstMatch.
    apply (firstMatch_label (Spec.toneRules toLowerCase) (lit "neutral") text).
  - apply detectTone_firstMatch.
  - reflexivity.
  - intros earlier cue label later Hrules.
    rewrite detectTone_firstMatch, Hrules. split.
    + apply firstMatch_first.
    + intros Hex Heq.
      pose proof (@firstMatch_earlier earlier ((cue, label) :: later)
                    (lit "neutral") text Hex) as Hin.
      rewrite Heq in Hin.
      pose proof tones_distinct as Hnd.
      change Spec.tones
        with (List.map snd (Spec.toneRules toLowerCase) ++ [lit "neutral"]) in Hnd.
      rewrite Hrules, map_app in Hnd. cbn [List.map snd] in Hnd.
      rewrite <- app_assoc in Hnd. cbn [app] in Hnd.
      apply NoDup_remove_2 in Hnd. apply Hnd.
      apply in_or_app. left. exact Hin.
  - exact Hbang.
  - intros H _. rewrite (Hbang H). split; [reflexivity|]. discriminate.
Qed.

(** ** The two dialogue counts *)

(** [extractScenes] adds a line to the dialogue of the open scene only when
    the raw line before it is a cue. *)
Lemma addLine_dialogue (lines : list jsstring) (i : nat) (line : jsstring)
    (sc : scene) :
  dialogue_lines (addLine lines i line sc) <> dialogue_lines sc ->
  0 < i /\ test cueRe (trim (nth (i - 1) lines [])) = true
  /\ dialogue_lines (addLine lines i line sc) = dialogue_lines sc ++ [line].
Proof.
  unfold addLine. cbn [dialogue_lines].
  destruct (test cueRe line); [intros H; contradiction H; reflexivity|].
  destruct (0 <? length line); cbn [andb];
    [|intros H; contradiction H; reflexivity].
  destruct (0 <? i) eqn:Hi; cbn [andb];
    [|intros H; contradiction H; reflexivity].
  destruct (test cueRe (trim (nth (i - 1) lines [])));
    [|intros H; contradiction H; reflexivity].
  intros _. apply Nat.ltb_lt in Hi. repeat split. exact Hi.
Qed.

(** [extractDialogue] gives to the current speaker every line that is not
    a cue, is not empty once trimmed, and does not start with INT., EXT.,
    FADE or CUT. *)
Lemma speak_attributes (toLowerCase : jsstring -> jsstring) (number : nat)
    (sp : speech) (line who : jsstring) :
  currentCharacter sp = Some who ->
  test cueRe (trim line) && (length (trim line) <? 30) = false ->
  0 < length (trim line) ->
  test directiveRe (trim line) = false ->
  currentCharacter (speak toLowerCase number sp line) = Some who
  /\ length (dialogue (speak toLowerCase number sp line))
     = S (length (dialogue sp)).
Proof.
  intros Hwho Hcue Hlen Hdir. unfold speak.
  rewrite Hcue, Hwho, Hdir. apply Nat.ltb_lt in Hlen. rewrite Hlen.
  cbn [andb negb currentCharacter dialogue]. split; [reflexivity|].
  rewrite length_app. simpl. lia.
Qed.

(** C10: on a script whose one cue is followed by a speech of two lines,
    [extractDialogue] returns two dialogue lines while [extractScenes] counts
    one: the two counts of the parser differ.  [extractScenes] counts the
    line that follows a cue; [extractDialogue] counts every line said while
    a speaker is current. *)
Theorem dialogue_counts_differ :
  exists text : jsstring,
    forall toLowerCase : jsstring -> jsstring,
      length (extractDialogue toLowerCase (extractScenes text)) = 2
      /\ list_sum (List.map (fun sc => length (dialogue_lines sc))
                            (extractScenes text)) = 1
      /\ length (extractDialogue toLowerCase (extractScenes text))
         <> list_sum (List.map (fun sc => length (dialogue_lines sc))
                               (extractScenes text)).
Proof.
  exists Inputs.twoLineSpeech. intros toLowerCase.
  assert (H2 : length (extractDialogue toLowerCase
                         (extractScenes Inputs.twoLineSpeech)) = 2)
    by (vm_compute; reflexivity).
  assert (H1 : list_sum (List.map (fun sc => length (dialogue_lines sc))
                                  (extractScenes Inputs.twoLineSpeech)) = 1)
    by (vm_compute; reflexivity).
  rewrite H2, H1. repeat split. discriminate.
Qed.

(** ** The properties at concrete scripts *)

Lemma page_start_le_page_end_witness :
  In Inputs.roomScene (extractScenes Inputs.twoLineSpeech)
  /\ exists e,
       page_end Inputs.roomScene = Some e /\ page_start Inputs.roomScene <= e.
Proof.
  assert (H : In Inputs.roomScene (extractScenes Inputs.twoLineSpeech))
    by (vm_compute; left; reflexivity).
  split; [exact H|].
  exact (@page_start_le_page_end Inputs.twoLineSpeech Inputs.roomScene H).
Defined.

Lemma dialogue_ratio_range_witness :
  In Inputs.roomScene (extractScenes Inputs.twoLineSpeech)
  /\ exists r : Q,
       dialogue_ratio Inputs.roomScene = Some r
       /\ r = (inject_Z (Z.of_nat (length (dialogue_lines Inputs.roomScene)))
               / inject_Z (Z.of_nat (length (dialogue_lines Inputs.roomScene)
                                     + length (action_lines Inputs.roomScene)
                                     + 1)))%Q
       /\ (0 <= r)%Q /\ (r < 1)%Q.
Proof.
  assert (H : In Inputs.roomScene (extractScenes Inputs.twoLineSpeech))
    by (vm_compute; left; reflexivity).
  split; [exact H|].
  exact (@dialogue_ratio_range Inputs.twoLineSpeech Inputs.roomScene H).
Defined.

Lemma identifyBeats_anchor_witness :
  In Inputs.midpoint beatTemplates
  /\ exists a,
       Spec.isAnchor a (filter (inRange Inputs.midpoint) Inputs.midpointScenes)
       /\ filter (fun b => eqs (beat_type b) (name Inputs.midpoint))
                 (identifyBeats Inputs.midpointScenes [])
          = [Beat (name Inputs.midpoint) (page_start a) (scene_number a)
                  (location a)
                  (if 1 <? length (filter (inRange Inputs.midpoint)
                                          Inputs.midpointScenes)
                   then 7 # 10 else 5 # 10)].
Proof.
  assert (H : In Inputs.midpoint beatTemplates)
    by (vm_compute; tauto).
  split; [exact H|].
  apply (proj2 (@identifyBeats_anchor Inputs.midpointScenes [] Inputs.midpoint H)).
  vm_compute. discriminate.
Defined.

End ParserSpec.

(* ================================================================== *)
(** * Properties of the outline generator                               *)
(* ================================================================== *)

Module GeneratorSpec.
Import JS Generator.
Local Open Scope nat_scope.

(** ** Settling *)

(** Grouping rows of plain beat types never throws. *)
Lemma groupBeat_resolves (rows : list beatRow) :
  Forall (fun r => inherited (beat_type r) = false) rows ->
  forall acc, exists grouped,
    fold_left groupBeat rows (Resolved acc) = Resolved grouped.
Proof.
  induction 1 as [|r rows Hr _ IH]; intros acc; simpl.
  - exists acc. reflexivity.
  - destruct (own (beat_type r) acc); [apply IH|].
    rewrite Hr. apply IH.
Qed.

Lemma getBeatTiming_resolves (db : database) (similarScripts : list script)
    (this : generator) :
  Spec.plainBeatTypes db ->
  exists timing,
    getBeatTiming db similarScripts this = (Resolved timing, this).
Proof.
  intros Hdb. unfold getBeatTiming.
  destruct (length similarScripts =? 0); [eexists; reflexivity|].
  destruct (story_beats_in db (List.map id similarScripts)) as [rows|] eqn:E;
    [|eexists; reflexivity].
  destruct (length rows =? 0); [eexists; reflexivity|].
  destruct (groupBeat_resolves (Hdb _ _ E) []) as [grouped Hg].
  unfold object in Hg |- *. rewrite Hg. eexists. reflexivity.
Qed.

Lemma predictSuccess_resolves (similarScripts : list script)
    (genre : option jsstring) (this : generator) :
  exists p, predictSuccess similarScripts genre this = (Resolved p, this).
Proof.
  unfold predictSuccess.
  destruct (length similarScripts =? 0); eexists; reflexivity.
Qed.

Lemma calculateOptimalStructure_resolves (similarScripts : list script)
    (this : generator) :
  exists st, calculateOptimalStructure similarScripts this = (Resolved st, this).
Proof.
  unfold calculateOptimalStructure.
  destruct (length similarScripts =? 0); eexists; reflexivity.
Qed.

Lemma findSimilarScripts_resolves (db : database) (genre : option jsstring)
    (limit : nat) (this : generator) :
  exists scripts,
    findSimilarScripts db genre limit this = (Resolved scripts, this).
Proof.
  unfold findSimilarScripts.
  destruct (scripts_like db genre limit) as [scripts|]; [|eexists; reflexivity].
  destruct (length scripts =? 0); eexists; reflexivity.
Qed.

(** The first step of [generateOutline], which loads the patterns once. *)
Lemma patterns_loaded (db : database) (this : generator) :
  exists this1,
    match patterns this with
    | None => loadPatterns db this
    | Some _ => ret tt this
    end = (Resolved tt, this1).
Proof. destruct (patterns this); eexists; reflexivity. Qed.

(** C1, as the code has it: [generateOutline] does not validate its
    arguments.  Whatever the premise and the genre, absent and empty ones
    included, the call resolves with an outline that carries both as they
    were given, on any database whose story beats have plain types. *)
Theorem generateOutline_no_validation (db : database)
    (premise genre : option jsstring) (targetLength : option number)
    (this : generator) :
  Spec.plainBeatTypes db ->
  exists o,
    fst (generateOutline db premise genre targetLength this) = Resolved o
    /\ Generator.premise o = premise
    /\ Generator.genre o = genre.
Proof.
  intros Hdb. unfold generateOutline, bind.
  destruct (patterns_loaded db this) as [this1 ->].
  destruct (findSimilarScripts_resolves db genre 10 this1) as [scripts ->].
  destruct (calculateOptimalStructure_resolves scripts this1) as [st ->].
  destruct (getBeatTiming_resolves scripts this1 Hdb) as [timing ->].
  destruct (predictSuccess_resolves scripts genre this1) as [p ->].
  eexists. split; [reflexivity|]. split; reflexivity.
Qed.

(** C1, as stated, fails: the call with an empty premise and the genre
    Action does not reject on the empty database. *)
Lemma generateOutline_accepts_empty_premise :
  ~ (forall db premise genre targetLength this,
       Spec.missing premise \/ Spec.missing genre ->
       exists e,
         fst (generateOutline db premise genre targetLength this) = Rejected e).
Proof.
  intros H.
  destruct (H Inputs.emptyDatabase (Some (lit "")) (Some (lit "Action")) None
              constructor) as [e He].
  - left. right. reflexivity.
  - vm_compute in He. discriminate He.
Qed.

(** ** Without comparables *)

Lemma findSimilarScripts_none (db : database) (genre : option jsstring)
    (this : generator) :
  Spec.noComparables db genre ->
  findSimilarScripts db genre 10 this = (Resolved [], this).
Proof.
  unfold Spec.noComparables, findSimilarScripts.
  destruct (scripts_like db genre 10) as [scripts|]; [|reflexivity].
  intros ->. reflexivity.
Qed.

(** C5: when the query for the genre returns no comparable, the call
    resolves; the outline has [totalPages] 110, or the target length when
    the caller gave one (a truthy one: a target of 0 counts as none); its
    prediction has probability 0.65, confidence medium, the reasoning that
    says no similar script is in the database, and no comparables. *)
Theorem generateOutline_without_comparables (db : database)
    (premise genre : option jsstring) (targetLength : option number)
    (this : generator) :
  Spec.noComparables db genre ->
  exists o,
    fst (generateOutline db premise genre targetLength this) = Resolved o
    /\ totalPages (o_structure o) =
       match targetLength with
       | Some t => if truthy t then t else 110%float
       | None => 110%float
       end
    /\ probability (o_prediction o) = 0.65%float
    /\ confidence (o_prediction o) = lit "medium"
    /\ reasoning (o_prediction o) =
       plain "Based on general patterns (no similar scripts in database)"
    /\ comparables (o_prediction o) = None.
Proof.
  intros Hnone. unfold generateOutline, bind.
  destruct (patterns_loaded db this) as [this1 ->].
  rewrite (@findSimilarScripts_none db genre this1 Hnone).
  change (calculateOptimalStructure [] this1)
    with (Resolved (Structure 110 30 60 90 110)%float, this1).
  change (getBeatTiming db [] this1) with (Resolved getDefaultBeats, this1).
  cbv beta iota.
  change (predictSuccess [] genre this1)
    with (Resolved
            (Prediction 0.65%float (lit "medium")
               (plain "Based on general patterns (no similar scripts in database)")
               None), this1).
  cbv beta iota.
  eexists. split; [reflexivity|].
  cbn [o_structure o_prediction probability confidence reasoning comparables].
  split; [|repeat split].
  unfold withTarget. destruct targetLength as [t|]; [|reflexivity].
  destruct (truthy t); reflexivity.
Qed.

(** ** The prediction *)

(** With comparables, the reported probability is the rounding to two
    decimal places of [probabilityOf], and the confidence is decided on
    [probabilityOf] itself. *)
Lemma predictSuccess_comparables (similarScripts : list script)
    (genre : option jsstring) (this : generator) :
  similarScripts <> [] ->
  exists p,
    fst (predictSuccess similarScripts genre this) = Resolved p
    /\ probability p =
       (mathRound (probabilityOf similarScripts * 100) / 100)%float
    /\ confidence p =
       (if 0.75 <? probabilityOf similarScripts then lit "high"
        else if 0.65 <? probabilityOf similarScripts then lit "medium"
        else lit "low")%float.
Proof.
  intros Hne. unfold predictSuccess.
  destruct similarScripts as [|s ss]; [contradiction|].
  eexists. split; [reflexivity|]. split; reflexivity.
Qed.

(** C4, as the code has it: for comparables rated 8.0, 7.5 and 7.4 the
    probability min(0.95, mean / 10) is 0.7633..., above the threshold 0.75
    and below 0.764; it is reported as 0.76, its rounding to two decimal
    places, and the confidence, decided before the rounding, is high. *)
Theorem predictSuccess_three_ratings (similarScripts : list script)
    (genre : option jsstring) (this : generator) :
  List.map imdb_rating similarScripts = [8.0; 7.5; 7.4]%float ->
  probabilityOf similarScripts = 0.76333333333333331%float
  /\ (0.75 <? probabilityOf similarScripts)%float = true
  /\ (probabilityOf similarScripts <? 0.764)%float = true
  /\ exists p,
       fst (predictSuccess similarScripts genre this) = Resolved p
       /\ probability p = 0.76%float
       /\ confidence p = lit "high".
Proof.
  intros H.
  destruct similarScripts as [|s1 [|s2 [|s3 [|s4 ss]]]]; try discriminate H.
  injection H as H1 H2 H3.
  assert (Hp : probabilityOf [s1; s2; s3] = 0.76333333333333331%float).
  { unfold probabilityOf, avgRatingOf. cbn [fold_left length].
    rewrite H1, H2, H3. vm_compute. reflexivity. }
  split; [exact Hp|].
  destruct (@predictSuccess_comparables [s1; s2; s3] genre this)
    as [p [Hr [Hprob Hconf]]]; [discriminate|].
  rewrite Hp in Hprob, Hconf |- *.
  split; [vm_compute; reflexivity|]. split; [vm_compute; reflexivity|].
  exists p. split; [exact Hr|].
  split; [rewrite Hprob; vm_compute; reflexivity|].
  rewrite Hconf. vm_compute. reflexivity.
Qed.

(** C4, as stated, fails: the probability for the three ratings is not
    0.764...; it lies below 0.764. *)
Lemma probability_three_ratings_not_0764 :
  ~ ((0.764 <=? probabilityOf Inputs.threeComparables)%float = true
     /\ (probabilityOf Inputs.threeComparables <? 0.765)%float = true).
Proof.
  intros [H _]. vm_compute in H. discriminate H.
Qed.

(** ** The properties at concrete calls *)

Lemma emptyDatabase_plain : Spec.plainBeatTypes Inputs.emptyDatabase.
Proof. intros ids rows H. discriminate H. Defined.

Lemma generateOutline_no_validation_witness :
  Spec.plainBeatTypes Inputs.emptyDatabase
  /\ exists o,
       fst (generateOutline Inputs.emptyDatabase (Some (lit "")) (Some (lit "Action"))
              None constructor) = Resolved o
       /\ Generator.premise o = Some (lit "")
       /\ Generator.genre o = Some (lit "Action").
Proof.
  split; [exact emptyDatabase_plain|].
  exact (@generateOutline_no_validation Inputs.emptyDatabase (Some (lit ""))
           (Some (lit "Action")) None constructor emptyDatabase_plain).
Defined.

Lemma generateOutline_without_comparables_witness :
  Spec.noComparables Inputs.emptyDatabase (Some (lit "Drama"))
  /\ exists o,
       fst (generateOutline Inputs.emptyDatabase (Some (lit "A premise"))
              (Some (lit "Drama")) (Some 95%float) constructor) = Resolved o
       /\ totalPages (o_structure o) = 95%float
       /\ probability (o_prediction o) = 0.65%float
       /\ confidence (o_prediction o) = lit "medium"
       /\ reasoning (o_prediction o) =
          plain "Based on general patterns (no similar scripts in database)"
       /\ comparables (o_prediction o) = None.
Proof.
  split; [exact I|].
  exact (@generateOutline_without_comparables Inputs.emptyDatabase
           (Some (lit "A premise")) (Some (lit "Drama")) (Some 95%float)
           constructor I).
Defined.

Lemma predictSuccess_three_ratings_witness :
  List.map imdb_rating Inputs.threeComparables = [8.0; 7.5; 7.4]%float
  /\ probabilityOf Inputs.threeComparables = 0.76333333333333331%float
  /\ (0.75 <? probabilityOf Inputs.threeComparables)%float = true
  /\ (probabilityOf Inputs.threeComparables <? 0.764)%float = true
  /\ exists p,
       fst (predictSuccess Inputs.threeComparables (Some (lit "Action"))
              constructor) = Resolved p
       /\ probability p = 0.76%float
       /\ confidence p = lit "high".
Proof.
  split; [reflexivity|].
  exact (@predictSuccess_three_ratings Inputs.threeComparables
           (Some (lit "Action")) constructor eq_refl).
Defined.

End GeneratorSpec.

(* ================================================================== *)
(** * More facts about the runtime                                      *)
(* ================================================================== *)

Module RuntimeFacts.
Import JS.
Local Open Scope nat_scope.

(** ** trim *)

Lemma trimStart_length (s : jsstring) : length (trimStart s) <= length s.
Proof.
  induction s as [|c s IH]; simpl; [lia|].
  destruct (isSpace c); simpl; lia.
Qed.

Lemma trimStart_head (s : jsstring) (c : char) (t : jsstring) :
  trimStart s = c :: t -> isSpace c = false.
Proof.
  induction s as [|x s IH]; simpl; [discriminate|].
  destruct (isSpace x) eqn:E; [exact IH|].
  intros [= <- _]. exact E.
Qed.

Lemma trimStart_fixed (s : jsstring) :
  trimStart s = s <-> (forall c t, s = c :: t -> isSpace c = false).
Proof.
  split.
  - intros H c t E. apply (@trimStart_head s c t). rewrite H. exact E.
  - intros H. destruct s as [|c s]; [reflexivity|].
    simpl. rewrite (H c s eq_refl). reflexivity.
Qed.

Lemma trimStart_idem (s : jsstring) : trimStart (trimStart s) = trimStart s.
Proof.
  apply trimStart_fixed. intros c t E. exact (trimStart_head s E).
Qed.

(** What [trimStart] keeps is a suffix of its argument. *)
Lemma trimStart_suffix (s : jsstring) : exists p, s = p ++ trimStart s.
Proof.
  induction s as [|c s [p IH]]; simpl; [exists []; reflexivity|].
  destruct (isSpace c).
  - exists (c :: p). simpl. f_equal. exact IH.
  - exists []. reflexivity.
Qed.

Lemma trimEnd_prefix (s : jsstring) : exists p, s = trimEnd s ++ p.
Proof.
  unfold trimEnd. destruct (trimStart_suffix (rev s)) as [p H].
  exists (rev p). rewrite <- rev_app_distr, <- H, rev_involutive. reflexivity.
Qed.

Lemma trimEnd_idem (s : jsstring) : trimEnd (trimEnd s) = trimEnd s.
Proof.
  unfold trimEnd. rewrite rev_involutive, trimStart_idem. reflexivity.
Qed.

Lemma trimStart_trimEnd (u : jsstring) :
  trimStart u = u -> trimStart (trimEnd u) = trimEnd u.
Proof.
  intros H. apply trimStart_fixed. intros c t E.
  destruct (trimEnd_prefix u) as [p Hp]. rewrite E in Hp.
  apply trimStart_fixed with (s := u) (t := t ++ p); [exact H|].
  rewrite Hp. reflexivity.
Qed.

(** [s.trim().trim()] is [s.trim()]. *)
Lemma trim_idem (s : jsstring) : trim (trim s) = trim s.
Proof.
  unfold trim.
  rewrite (trimStart_trimEnd (trimStart_idem s)). apply trimEnd_idem.
Qed.

(** Trimming only removes characters. *)
Lemma trim_In (s : jsstring) (c : char) : In c (trim s) -> In c s.
Proof.
  unfold trim. intros H.
  destruct (trimEnd_prefix (trimStart s)) as [p Hp].
  destruct (trimStart_suffix s) as [q Hq].
  rewrite Hq. apply in_or_app. right. rewrite Hp. apply in_or_app. left. exact H.
Qed.

(** ** split *)

Lemma split_cons (sep : char) (s : jsstring) :
  exists l ls, split sep s = l :: ls.
Proof.
  destruct (split sep s) as [|l ls] eqn:E.
  - exfalso. exact (JSFacts.split_nonempty sep s E).
  - exists l, ls. reflexivity.
Qed.

Lemma split_app_sep (sep : char) (l rest : jsstring) :
  ~ In sep l -> split sep (l ++ sep :: rest) = l :: split sep rest.
Proof.
  induction l as [|c l IH]; intros H; simpl.
  - rewrite N.eqb_refl. reflexivity.
  - destruct (N.eqb_spec c sep) as [->|Hne].
    + exfalso. apply H. left. reflexivity.
    + rewrite IH; [reflexivity|]. intros Hin. apply H. right. exact Hin.
Qed.

(** The pieces of a split do not contain the separator. *)
Lemma split_pieces (sep : char) (s : jsstring) :
  Forall (fun l => ~ In sep l) (split sep s).
Proof.
  induction s as [|c s IH]; simpl.
  - constructor; [intros []|constructor].
  - destruct (N.eqb_spec c sep) as [->|Hne].
    + constructor; [intros []|exact IH].
    + destruct (split sep s) as [|l ls]; [repeat constructor; intros [E|[]]; congruence|].
      inversion IH as [|? ? Hl Hls]; subst.
      constructor; [|exact Hls].
      intros [E|Hin]; [congruence|exact (Hl Hin)].
Qed.

(** Lines each ended by the separator split back into the lines, and one
    empty piece after the last separator. *)
Lemma split_lines (sep : char) (ls : list jsstring) :
  Forall (fun l => ~ In sep l) ls ->
  split sep (flat_map (fun l => l ++ [sep]) ls) = ls ++ [[]].
Proof.
  induction 1 as [|l ls Hl _ IH]; simpl; [reflexivity|].
  rewrite <- app_assoc. simpl. rewrite split_app_sep by exact Hl.
  rewrite IH. reflexivity.
Qed.

(** ** Patterns *)

(** A greedy repetition followed by the end of the input consumes the
    whole input, which its class must accept. *)
Lemma manyGreedy_to_end (p : char -> bool) (k : cont) :
  (forall s, after s <> [] -> k s = None) ->
  forall (a b : list char) (min : nat) (cs : list (nat * jsstring)),
    manyGreedy p k min cs b a <> None -> Forall (fun c => p c = true) a.
Proof.
  intros Hk. induction a as [|x a IH]; intros b min cs H; [constructor|].
  cbn [manyGreedy] in H.
  assert (Hstop : (if Nat.eqb min 0 then k (MState b (x :: a) cs) else None)
                  = None).
  { destruct (Nat.eqb min 0); [|reflexivity]. apply Hk. discriminate. }
  rewrite Hstop in H. destruct (p x) eqn:Px; [|contradiction H; reflexivity].
  constructor; [exact Px|].
  apply (IH (x :: b) (Nat.pred min) cs).
  destruct (manyGreedy p k (Nat.pred min) cs (x :: b) a);
    [discriminate|exact H].
Qed.

(** ** Objects and maps *)

Import Generator.

Lemma eqs_sym (a b : jsstring) : eqs a b = eqs b a.
Proof.
  destruct (eqs a b) eqn:E1, (eqs b a) eqn:E2; try reflexivity.
  - apply JSFacts.eqs_eq in E1. subst. rewrite JSFacts.eqs_refl in E2. discriminate.
  - apply JSFacts.eqs_eq in E2. subst. rewrite JSFacts.eqs_refl in E1. discriminate.
Qed.

(** Reading back the key just written. *)
Lemma own_put_same (A : Type) (k : jsstring) (v : A) (o : object A) :
  own k (put k v o) = Some v.
Proof.
  induction o as [|[k' v'] o IH]; simpl.
  - rewrite JSFacts.eqs_refl. reflexivity.
  - destruct (eqs k k') eqn:E; simpl; rewrite E; [reflexivity|exact IH].
Qed.

(** Writing a key leaves the other keys as they were. *)
Lemma own_put_other (A : Type) (k k' : jsstring) (v : A) (o : object A) :
  k <> k' -> own k (put k' v o) = own k o.
Proof.
  intros Hne. induction o as [|[k2 v2] o IH]; simpl.
  - rewrite JSFacts.eqs_neq by exact Hne. reflexivity.
  - destruct (eqs k' k2) eqn:E; simpl.
    + apply JSFacts.eqs_eq in E. subst k2.
      rewrite JSFacts.eqs_neq by exact Hne. reflexivity.
    + destruct (eqs k k2); [reflexivity|exact IH].
Qed.

Lemma own_In (A : Type) (k : jsstring) (v : A) (o : object A) :
  own k o = Some v -> In (k, v) o.
Proof.
  induction o as [|[k' v'] o IH]; simpl; [discriminate|].
  destruct (eqs k k') eqn:E.
  - apply JSFacts.eqs_eq in E. subst. intros [= ->]. left. reflexivity.
  - intros H. right. exact (IH H).
Qed.

Lemma own_None (A : Type) (k : jsstring) (o : object A) :
  own k o = None <-> ~ In k (List.map fst o).
Proof.
  induction o as [|[k' v'] o IH]; simpl; [tauto|].
  destruct (eqs k k') eqn:E.
  - apply JSFacts.eqs_eq in E. subst. split; [discriminate|]. intros H. exfalso. tauto.
  - rewrite IH. split.
    + intros H [E'|Hin]; [subst; rewrite JSFacts.eqs_refl in E; discriminate|tauto].
    + tauto.
Qed.

Lemma In_own (A : Type) (k : jsstring) (v : A) (o : object A) :
  NoDup (List.map fst o) -> In (k, v) o -> own k o = Some v.
Proof.
  induction o as [|[k' v'] o IH]; simpl; [intros _ []|].
  intros Hnd [E|Hin]; inversion Hnd as [|? ? Hnot Hnd']; subst.
  - injection E as -> ->. rewrite JSFacts.eqs_refl. reflexivity.
  - destruct (eqs k k') eqn:E.
    + apply JSFacts.eqs_eq in E. subst. exfalso. apply Hnot.
      apply (in_map fst) in Hin. exact Hin.
    + exact (IH Hnd' Hin).
Qed.

(** The keys after a write: the same, or one more at the end. *)
Lemma put_keys (A : Type) (k : jsstring) (v : A) (o : object A) :
  List.map fst (put k v o) =
  match own k o with
  | Some _ => List.map fst o
  | None => List.map fst o ++ [k]
  end.
Proof.
  induction o as [|[k' v'] o IH]; simpl; [reflexivity|].
  destruct (eqs k k') eqn:E; simpl; [reflexivity|].
  rewrite IH. destruct (own k o); reflexivity.
Qed.

Lemma put_NoDup (A : Type) (k : jsstring) (v : A) (o : object A) :
  NoDup (List.map fst o) -> NoDup (List.map fst (put k v o)).
Proof.
  intros H. rewrite put_keys. destruct (own k o) eqn:E; [exact H|].
  apply own_None in E.
  apply NoDup_app; [exact H|repeat constructor; intros []|].
  intros x Hx [<-|[]]. exact (E Hx).
Qed.

(** ** sort *)

Section SortFacts.
Variable A : Type.
Variable key : A -> nat.

Lemma insertBy_perm (x : A) (l : list A) :
  Permutation (insertBy (Notions.descending key) x l) (x :: l).
Proof.
  induction l as [|y l IH]; simpl; [apply Permutation_refl|].
  destruct (Notions.descending key x y <=? 0)%Z; [apply Permutation_refl|].
  eapply perm_trans; [apply perm_skip, IH|].
  apply perm_swap.
Qed.

(** The sort keeps the elements. *)
Lemma sortBy_perm (l : list A) :
  Permutation (sortBy (Notions.descending key) l) l.
Proof.
  induction l as [|x l IH]; simpl; [constructor|].
  eapply perm_trans; [apply insertBy_perm|].
  apply perm_skip, IH.
Qed.

Lemma insertBy_sorted (x : A) (l : list A) :
  StronglySorted (fun a b => key b <= key a) l ->
  StronglySorted (fun a b => key b <= key a) (insertBy (Notions.descending key) x l).
Proof.
  induction 1 as [|y l Hs IH Hy]; simpl; [repeat constructor|].
  destruct (Notions.descending key x y <=? 0)%Z eqn:E.
  - apply Z.leb_le in E. unfold Notions.descending in E.
    constructor; [constructor; assumption|].
    constructor; [lia|].
    eapply Forall_impl; [|exact Hy]. cbn beta. intros z Hz. lia.
  - apply Z.leb_gt in E. unfold Notions.descending in E.
    constructor; [exact IH|].
    eapply Permutation_Forall;
      [apply Permutation_sym, insertBy_perm|].
    constructor; [lia|exact Hy].
Qed.

(** The sort returns the elements by decreasing [key]. *)
Lemma sortBy_sorted (l : list A) :
  StronglySorted (fun a b => key b <= key a) (sortBy (Notions.descending key) l).
Proof.
  induction l as [|x l IH]; simpl; [constructor|].
  apply insertBy_sorted, IH.
Qed.

End SortFacts.

End RuntimeFacts.

(* ================================================================== *)
(** * Further properties of the parser                                  *)
(* ================================================================== *)

Module ScanFacts.
Import JS Parser Notions.
Local Open Scope nat_scope.

Lemma scanTo_S (lines : list jsstring) (k : nat) :
  scanTo lines (S k) = step lines (scanTo lines k) k.
Proof.
  unfold scanTo. rewrite seq_S, fold_left_app. reflexivity.
Qed.

Lemma headerIndices_S (lines : list jsstring) (k : nat) :
  headerIndices lines (S k) =
  headerIndices lines k ++ (if headerAt lines k then [k] else []).
Proof.
  unfold headerIndices. rewrite seq_S, filter_app. simpl.
  destruct (headerAt lines k); reflexivity.
Qed.

Lemma headerAt_test (lines : list jsstring) (i : nat) :
  test headerRe (trim (nth i lines [])) = headerAt lines i.
Proof. unfold headerAt, Spec.isSceneHeader. apply ParserSpec.test_headerRe. Qed.

(** The page counter moves at the indices that are multiples of 60. *)
Lemma pageAt_S (k : nat) :
  pageAt (S k) = pageAt k + (if k mod 60 =? 0 then 1 else 0).
Proof.
  unfold pageAt.
  pose proof (Nat.div_mod_eq k 60) as E.
  pose proof (Nat.mod_upper_bound k 60 ltac:(discriminate)) as B.
  destruct (Nat.eqb_spec (k mod 60) 0) as [Z|NZ].
  - assert (E1 : (S k + 59) / 60 = S (k / 60))
      by (symmetry; apply Nat.div_unique with (r := 0); lia).
    assert (E2 : (k + 59) / 60 = k / 60)
      by (symmetry; apply Nat.div_unique with (r := 59); lia).
    lia.
  - assert (E1 : (S k + 59) / 60 = S (k / 60))
      by (symmetry; apply Nat.div_unique with (r := k mod 60); lia).
    assert (E2 : (k + 59) / 60 = S (k / 60))
      by (symmetry; apply Nat.div_unique with (r := k mod 60 - 1); lia).
    lia.
Qed.

Lemma built_0 (lines : list jsstring) : built lines 0 scan0.
Proof. repeat split. Qed.

Lemma removelast_snoc (A : Type) (l : list A) (x : A) :
  removelast (l ++ [x]) = l.
Proof. apply removelast_last. Qed.

Lemma tl_snoc (A : Type) (l : list A) (x : A) :
  l <> [] -> tl (l ++ [x]) = tl l ++ [x].
Proof. destruct l; [contradiction|reflexivity]. Qed.

Lemma removelast_last_app (A : Type) (l : list A) (d : A) :
  l <> [] -> removelast l ++ [last l d] = l.
Proof. intros H. symmetry. apply app_removelast_last. exact H. Qed.

(** The scenes as they would be returned were the input to end here. *)
Lemma pushCurrent_built (lines : list jsstring) (k : nat) (st : scan) :
  built lines k st ->
  let H := headerIndices lines k in
  List.map scene_number (pushCurrent st) = seq 1 (length H)
  /\ List.map page_start (pushCurrent st) = List.map pageAt H
  /\ List.map page_end (pushCurrent st)
     = List.map (fun i => Some (pageAt i)) (tl (H ++ [k])).
Proof.
  unfold built. intros (Hp & Hn & Hnum & Hstart & Hend & Hcur).
  set (H := headerIndices lines k) in *. cbv zeta.
  unfold pushCurrent. destruct (currentScene st) as [sc|].
  - destruct Hcur as (Hne & Hsn & Hps).
    rewrite !map_app, Hnum, Hstart, Hend.
    cbn [List.map closeScene scene_number page_start page_end].
    rewrite Hsn, Hps, Hp. split; [|split].
    + destruct (length H) as [|n] eqn:En;
        [destruct H; [contradiction|discriminate En]|].
      replace (S n - 1) with n by lia. rewrite seq_S. reflexivity.
    + rewrite <- (removelast_last_app 0 Hne) at 3.
      rewrite map_app. reflexivity.
    + rewrite tl_snoc by exact Hne. rewrite map_app. reflexivity.
  - rewrite Hcur in *. rewrite Hnum, Hstart, Hend. repeat split.
Qed.

Lemma step_built (lines : list jsstring) (k : nat) (st : scan) :
  built lines k st -> built lines (S k) (step lines st k).
Proof.
  intros Hb. pose proof (pushCurrent_built Hb) as Hpush. cbv zeta in Hpush.
  revert Hb.
  unfold built. intros (Hp & Hn & Hnum & Hstart & Hend & Hcur).
  rewrite headerIndices_S, pageAt_S.
  set (H := headerIndices lines k) in *.
  unfold step. rewrite headerAt_test.
  destruct (headerAt lines k) eqn:Hh.
  - (* a header: the open scene is pushed, a new one is opened *)
    destruct Hpush as (P1 & P2 & P3).
    rewrite length_app, removelast_snoc. cbn [length].
    replace (length H + 1 - 1) with (length H) by lia.
    destruct (k mod 60 =? 0);
      cbn [currentScene scenes sceneNumber pageCount addLine openScene
           scene_number page_start];
      (repeat split; try assumption; try lia;
       try (intros E; destruct H; discriminate E);
       try (rewrite last_last; lia)).
  - (* no header *)
    rewrite app_nil_r.
    destruct (currentScene st) as [sc|] eqn:Hc;
      destruct (k mod 60 =? 0);
      cbn [currentScene scenes sceneNumber pageCount addLine
           scene_number page_start];
      rewrite ?Hc;
      cbn [currentScene scenes sceneNumber pageCount addLine
           scene_number page_start];
      repeat split; try assumption; try lia; try tauto.
Qed.

Lemma scanTo_built (lines : list jsstring) (k : nat) :
  built lines k (scanTo lines k).
Proof.
  induction k as [|k IH]; [apply built_0|].
  rewrite scanTo_S. apply step_built, IH.
Qed.

Lemma extractScenes_scanTo (text : jsstring) :
  extractScenes text =
  List.map finishScene
    (pushCurrent (scanTo (split newline text) (length (split newline text)))).
Proof. reflexivity. Qed.

(** The numbers and pages of the scenes returned, in terms of the indices
    of the headers. *)
Lemma extractScenes_built (text : jsstring) :
  let lines := split newline text in
  let H := headerIndices lines (length lines) in
  List.map scene_number (extractScenes text) = seq 1 (length H)
  /\ List.map page_start (extractScenes text) = List.map pageAt H
  /\ List.map page_end (extractScenes text)
     = List.map (fun i => Some (pageAt i)) (tl (H ++ [length lines])).
Proof.
  cbv zeta. rewrite extractScenes_scanTo, !map_map.
  change (fun x => scene_number (finishScene x)) with scene_number.
  change (fun x => page_start (finishScene x)) with page_start.
  change (fun x => page_end (finishScene x)) with page_end.
  exact (pushCurrent_built (scanTo_built (split newline text)
                              (length (split newline text)))).
Qed.

End ScanFacts.

Module ParserExtra.
Import JS Parser Notions.
Local Open Scope nat_scope.

(** X1: the scenes returned are numbered 1, 2, ..., in the order of the
    list. *)
Theorem scene_numbers_sequential (text : jsstring) :
  List.map scene_number (extractScenes text)
  = seq 1 (length (extractScenes text)).
Proof.
  rewrite ScanFacts.extractScenes_scanTo, length_map, map_map.
  change (fun x => scene_number (finishScene x)) with scene_number.
  destruct (ScanFacts.pushCurrent_built (ScanFacts.scanTo_built
              (split newline text) (length (split newline text))))
    as (H1 & _ & _).
  rewrite <- (length_map scene_number), H1, length_seq. reflexivity.
Qed.

(** X2: the scene opened by the header at line index i starts on page
    ceil(i / 60): page 0 for the first line of the script, page 1 for the
    lines of index 1 to 60, and so on. *)
Theorem page_start_of_header (text : jsstring) :
  let lines := split newline text in
  List.map page_start (extractScenes text)
  = List.map (fun i => (i + 59) / 60)
      (filter (fun i => Spec.isSceneHeader (nth i lines []))
              (seq 0 (length lines))).
Proof.
  cbv zeta. rewrite ScanFacts.extractScenes_scanTo, map_map.
  change (fun x => page_start (finishScene x)) with page_start.
  destruct (ScanFacts.pushCurrent_built (ScanFacts.scanTo_built
              (split newline text) (length (split newline text))))
    as (_ & H2 & _).
  exact H2.
Qed.

(** X3: every scene ends on the page on which the next scene starts, and
    the last scene ends on the page count that [identifyBeats] computes for
    the script. *)
Theorem page_end_is_next_page_start (text : jsstring) :
  List.map page_end (extractScenes text)
  = List.map Some
      (tl (List.map page_start (extractScenes text) ++ [totalPagesOf text])).
Proof.
  rewrite ScanFacts.extractScenes_scanTo, !map_map.
  change (fun x => page_start (finishScene x)) with page_start.
  change (fun x => page_end (finishScene x)) with page_end.
  destruct (ScanFacts.pushCurrent_built (ScanFacts.scanTo_built
              (split newline text) (length (split newline text))))
    as (_ & H2 & H3).
  rewrite H2, H3.
  set (H := headerIndices (split newline text) (length (split newline text))).
  change (totalPagesOf text) with (pageAt (length (split newline text))).
  destruct H as [|h H']; [reflexivity|].
  cbn [List.map app tl]. rewrite !map_app, map_map. reflexivity.
Qed.

(** ** Beats *)

(** Every beat is read off a scene of the input that starts in the window
    of its template. *)
Lemma beat_from_scene (scenes : list scene) (fullText : jsstring) (b : beat) :
  In b (identifyBeats scenes fullText) ->
  exists t a,
    In t beatTemplates /\ In a scenes /\ inRange t a = true
    /\ beat_type b = name t /\ page_number b = page_start a
    /\ b_scene_number b = scene_number a /\ b_location b = location a.
Proof.
  unfold identifyBeats. intros Hb. apply in_flat_map in Hb.
  destruct Hb as [t [Ht Hb]]. exists t.
  destruct (filter (inRange t) scenes) as [|c cs] eqn:Hf.
  - rewrite ParserSpec.beatFor_none in Hb by exact Hf. contradiction.
  - destruct (@ParserSpec.beatFor_anchor scenes t) as [a [Ha Hbeat]];
      [rewrite Hf; discriminate|].
    rewrite Hbeat in Hb. destruct Hb as [<- | []].
    destruct Ha as [earlier [later [Heq _]]].
    assert (Hin : In a (filter (inRange t) scenes)).
    { rewrite Heq. apply in_or_app. right. left. reflexivity. }
    apply filter_In in Hin. destruct Hin as [Hin Hr].
    exists a. repeat split; assumption.
Qed.

Lemma beatFor_type (scenes : list scene) (t : template) :
  List.map beat_type (beatFor scenes t)
  = if existsb (inRange t) scenes then [name t] else [].
Proof.
  destruct (filter (inRange t) scenes) as [|c cs] eqn:Hf.
  - rewrite ParserSpec.beatFor_none by exact Hf.
    destruct (existsb (inRange t) scenes) eqn:E; [|reflexivity].
    apply existsb_exists in E. destruct E as [x [Hx Hr]].
    assert (Hin : In x (filter (inRange t) scenes))
      by (apply filter_In; split; assumption).
    rewrite Hf in Hin. contradiction.
  - destruct (@ParserSpec.beatFor_anchor scenes t) as [a [_ ->]];
      [rewrite Hf; discriminate|].
    assert (E : existsb (inRange t) scenes = true).
    { apply existsb_exists. exists c.
      assert (Hin : In c (filter (inRange t) scenes))
        by (rewrite Hf; left; reflexivity).
      apply filter_In in Hin. exact Hin. }
    rewrite E. reflexivity.
Qed.

Lemma beats_types (scenes : list scene) (ts : list template) :
  List.map beat_type (flat_map (beatFor scenes) ts)
  = List.map name (filter (fun t => existsb (inRange t) scenes) ts).
Proof.
  induction ts as [|t ts IH]; [reflexivity|].
  cbn [flat_map filter]. rewrite map_app, beatFor_type, IH.
  destruct (existsb (inRange t) scenes); reflexivity.
Qed.

Lemma names_of_filter (f : template -> bool) (ts : list template) :
  NoDup (List.map name ts) -> NoDup (List.map name (filter f ts)).
Proof.
  induction ts as [|t ts IH]; intros Hnd; [constructor|].
  cbn [List.map] in Hnd. inversion Hnd as [|? ? Hnot Hnd']; subst.
  cbn [filter]. destruct (f t); [|exact (IH Hnd')].
  cbn [List.map]. constructor; [|exact (IH Hnd')].
  intros Hin. apply Hnot. apply in_map_iff in Hin.
  destruct Hin as [x [Hx Hin]]. apply filter_In in Hin.
  rewrite <- Hx. apply in_map. exact (proj1 Hin).
Qed.

(** X4: the beat types returned are exactly those of the templates whose
    window holds the [page_start] of some scene, once each and in the order
    of the catalog; so at most seven beats are returned; and every beat
    carries the page, number and location of a scene of the input that
    starts in the window of its type. *)
Theorem identifyBeats_types (scenes : list scene) (fullText : jsstring) :
  List.map beat_type (identifyBeats scenes fullText)
  = List.map name (filter (fun t => existsb (inRange t) scenes) beatTemplates)
  /\ NoDup (List.map beat_type (identifyBeats scenes fullText))
  /\ length (identifyBeats scenes fullText) <= 7
  /\ Forall (fun b => exists t a,
                In t beatTemplates /\ In a scenes /\ inRange t a = true
                /\ beat_type b = name t /\ page_number b = page_start a
                /\ b_scene_number b = scene_number a
                /\ b_location b = location a)
            (identifyBeats scenes fullText).
Proof.
  assert (Htypes :
    List.map beat_type (identifyBeats scenes fullText)
    = List.map name (filter (fun t => existsb (inRange t) scenes) beatTemplates))
    by apply beats_types.
  split; [exact Htypes|]. split; [|split].
  - rewrite Htypes. apply names_of_filter, ParserSpec.beatTemplates_names.
  - rewrite <- (length_map beat_type), Htypes, length_map.
    etransitivity; [apply filter_length_le|]. reflexivity.
  - apply Forall_forall. intros b Hb. exact (beat_from_scene _ _ _ Hb).
Qed.

Lemma sorted_app (A : Type) (R : A -> A -> Prop) (l1 l2 : list A) :
  StronglySorted R l1 -> StronglySorted R l2 ->
  (forall a b, In a l1 -> In b l2 -> R a b) ->
  StronglySorted R (l1 ++ l2).
Proof.
  intros H1 H2 H. induction H1 as [|x l1 Hs IH Hx]; [exact H2|].
  cbn [app]. constructor.
  - apply IH. intros a b Ha Hb. apply H; [right; exact Ha|exact Hb].
  - apply Forall_app. split; [exact Hx|].
    apply Forall_forall. intros b Hb. apply H; [left; reflexivity|exact Hb].
Qed.

Lemma beatFor_one (scenes : list scene) (t : template) :
  StronglySorted (fun a b => page_number a < page_number b)
    (beatFor scenes t).
Proof.
  unfold beatFor. destruct (0 <? length (filter (inRange t) scenes));
    [|constructor].
  destruct (sortBy byDialogue (filter (inRange t) scenes));
    repeat constructor.
Qed.

Lemma beats_sorted (scenes : list scene) (ts : list template) :
  StronglySorted (fun t u => snd (range t) < fst (range u)) ts ->
  StronglySorted (fun a b => page_number a < page_number b)
    (flat_map (beatFor scenes) ts).
Proof.
  induction 1 as [|t ts Hs IH Ht]; cbn [flat_map]; [constructor|].
  apply sorted_app; [apply beatFor_one|exact IH|].
  intros a b Ha Hb. apply in_flat_map in Hb. destruct Hb as (u & Hu & Hb).
  rewrite Forall_forall in Ht. specialize (Ht u Hu).
  destruct (ParserSpec.beatFor_in_range _ _ _ Ha) as (_ & _ & Ha2).
  destruct (ParserSpec.beatFor_in_range _ _ _ Hb) as (_ & Hb1 & _).
  lia.
Qed.

(** X5: the beats are returned in the order of the script: the page of
    each beat is before the page of the next, since the windows of the
    catalog follow one another without overlap. *)
Theorem beats_in_page_order (scenes : list scene) (fullText : jsstring) :
  StronglySorted (fun a b => page_number a < page_number b)
    (identifyBeats scenes fullText).
Proof.
  unfold identifyBeats. cbv zeta. apply beats_sorted.
  unfold beatTemplates.
  repeat (constructor; [|repeat (constructor; [cbn; lia|]); constructor]).
  constructor.
Qed.

(** X6: when the first line of the script is a scene header, the scene it
    opens is numbered 1 and starts on page 0, before the first window; no
    beat is ever read off it. *)
Theorem first_line_scene_is_no_beat (text : jsstring) :
  Spec.isSceneHeader (hd [] (split newline text)) = true ->
  (exists sc rest,
     extractScenes text = sc :: rest
     /\ scene_number sc = 1 /\ page_start sc = 0)
  /\ Forall (fun b => b_scene_number b <> 1)
            (identifyBeats (extractScenes text) text).
Proof.
  intros Hh.
  destruct (ScanFacts.extractScenes_built text) as (Hnum & Hps & _).
  unfold headerIndices in Hnum, Hps.
  destruct (RuntimeFacts.split_cons newline text) as [l [ls Hsplit]].
  rewrite Hsplit in Hh, Hnum, Hps.
  cbn [hd length seq filter] in Hh, Hnum, Hps.
  unfold headerAt at 1 in Hps. unfold headerAt at 1 in Hnum.
  cbn [nth] in Hnum, Hps. rewrite Hh in Hnum, Hps.
  cbn [List.map length seq] in Hnum, Hps.
  destruct (extractScenes text) as [|sc rest] eqn:Hs; [discriminate Hps|].
  cbn [List.map] in Hnum, Hps.
  injection Hnum as Hn1 Hnrest. injection Hps as Hp1 _.
  change (pageAt 0) with 0 in Hp1.
  split; [exists sc, rest; repeat split; assumption|].
  apply Forall_forall. intros b Hb.
  destruct (beat_from_scene _ _ _ Hb)
    as (t & a & Ht & Ha & Hr & _ & _ & Hsn & _).
  rewrite Hsn.
  assert (Hlo : 1 <= page_start a).
  { unfold inRange in Hr. apply andb_true_iff in Hr. destruct Hr as [Hr _].
    apply Nat.leb_le in Hr.
    assert (Hall : Forall (fun t => 1 <= fst (range t)) beatTemplates)
      by (repeat constructor).
    rewrite Forall_forall in Hall. specialize (Hall t Ht). lia. }
  destruct Ha as [<-|Ha]; [lia|].
  apply (in_map scene_number) in Ha. rewrite Hnrest in Ha.
  apply in_seq in Ha. lia.
Qed.

(** ** At a concrete script *)

Lemma first_line_scene_is_no_beat_witness :
  Spec.isSceneHeader (hd [] (split newline Samples.kitchen)) = true
  /\ (exists sc rest,
        extractScenes Samples.kitchen = sc :: rest
        /\ scene_number sc = 1 /\ page_start sc = 0)
  /\ Forall (fun b => b_scene_number b <> 1)
       (identifyBeats (extractScenes Samples.kitchen) Samples.kitchen).
Proof.
  assert (H : Spec.isSceneHeader (hd [] (split newline Samples.kitchen)) = true)
    by (vm_compute; reflexivity).
  split; [exact H|].
  exact (@first_line_scene_is_no_beat Samples.kitchen H).
Defined.

End ParserExtra.

(* ================================================================== *)
(** * The lines of a scene                                              *)
(* ================================================================== *)

Module LineFacts.
Import JS Parser Notions.
Local Open Scope nat_scope.

(** A cue is made of capital letters and white space only, and has at
    least three characters. *)
Lemma cue_chars (l : jsstring) :
  test cueRe l = true ->
  Forall (fun c => isUpperAZ c || isSpace c = true) l /\ 3 <= length l.
Proof.
  unfold cueRe, seqs. rewrite JSFacts.test_anchored. cbn [run after before caps].
  destruct l as [|c r]; [discriminate|].
  destruct (isUpperAZ c) eqn:Hc; [|discriminate].
  intros H.
  match type of H with
  | context [manyGreedy ?p ?k ?m ?cs ?b ?a] =>
      assert (Hr : manyGreedy p k m cs b a <> None)
        by (intros E; rewrite E in H; discriminate);
      assert (Hk : forall s, after s <> [] -> k s = None)
        by (intros s Hs; cbv beta; destruct (after s);
            [contradiction|reflexivity])
  end.
  split.
  - constructor; [rewrite Hc; reflexivity|].
    exact (RuntimeFacts.manyGreedy_to_end _ _ Hk _ _ _ _ Hr).
  - destruct r as [|x [|y r']]; cbn in Hr |- *; try lia.
    + contradiction Hr; reflexivity.
    + destruct (isUpperAZ x || isSpace x); contradiction Hr; reflexivity.
Qed.

Lemma sameChar_dot (c : char) : sameChar true 46%N c = true -> c = 46%N.
Proof.
  unfold sameChar. change (upperASCII 46%N) with 46%N. unfold upperASCII.
  destruct ((97 <=? c)%N && (c <=? 122)%N) eqn:Hl; intros H;
    apply N.eqb_eq in H; [|exact H].
  apply andb_true_iff in Hl. destruct Hl as [L1 L2].
  apply N.leb_le in L1. apply N.leb_le in L2. lia.
Qed.

Lemma startsWith_dot (a b c : char) (l : jsstring) :
  Spec.startsWith true [a; b; c; 46%N] l = true ->
  exists c1 c2 c3 r, l = c1 :: c2 :: c3 :: 46%N :: r.
Proof.
  destruct l as [|c1 [|c2 [|c3 [|c4 r]]]]; cbn [Spec.startsWith];
    rewrite ?andb_false_r; try discriminate.
  intros H. do 3 (apply andb_true_iff in H; destruct H as [_ H]).
  apply andb_true_iff in H. destruct H as [H _].
  apply sameChar_dot in H. subst c4. exists c1, c2, c3, r. reflexivity.
Qed.

(** A scene header is not a cue: its fourth character is a full stop. *)
Lemma header_not_cue (l : jsstring) :
  test headerRe l = true -> test cueRe l = false.
Proof.
  rewrite ParserSpec.test_headerRe. intros H.
  assert (Hdot : exists c1 c2 c3 r, l = c1 :: c2 :: c3 :: 46%N :: r).
  { apply orb_true_iff in H. destruct H as [H|H];
      [change (lit "INT.") with [73; 78; 84; 46]%N in H
      |change (lit "EXT.") with [69; 88; 84; 46]%N in H];
      exact (startsWith_dot _ _ _ _ H). }
  destruct Hdot as (c1 & c2 & c3 & r & ->).
  destruct (test cueRe (c1 :: c2 :: c3 :: 46%N :: r)) eqn:E; [|reflexivity].
  apply cue_chars in E. destruct E as [E _].
  rewrite Forall_forall in E.
  specialize (E 46%N ltac:(right; right; right; left; reflexivity)).
  discriminate E.
Qed.

(** ** Sets of names *)

Lemma existsb_eqs (x : jsstring) (l : list jsstring) :
  existsb (eqs x) l = true <-> In x l.
Proof.
  rewrite existsb_exists. split.
  - intros [y [Hy E]]. apply JSFacts.eqs_eq in E. subst. exact Hy.
  - intros H. exists x. split; [exact H|apply JSFacts.eqs_refl].
Qed.

Lemma setAdd_In (x y : jsstring) (l : list jsstring) :
  In x (setAdd y l) <-> x = y \/ In x l.
Proof.
  unfold setAdd. destruct (existsb (eqs y) l) eqn:E.
  - apply existsb_eqs in E. split; [tauto|]. intros [->|H]; assumption.
  - rewrite in_app_iff. simpl. split; [intros [H|[H|[]]]; auto|].
    intros [->|H]; auto.
Qed.

Lemma setAdd_NoDup (y : jsstring) (l : list jsstring) :
  NoDup l -> NoDup (setAdd y l).
Proof.
  intros H. unfold setAdd. destruct (existsb (eqs y) l) eqn:E; [exact H|].
  apply NoDup_app; [exact H|repeat constructor; intros []|].
  intros x Hx [<-|[]].
  apply existsb_eqs in Hx. rewrite Hx in E. discriminate.
Qed.

Lemma setAdd_all (ls : list jsstring) :
  forall acc,
    NoDup acc ->
    NoDup (fold_left (fun a l => setAdd l a) ls acc)
    /\ forall x, In x (fold_left (fun a l => setAdd l a) ls acc)
                 <-> In x acc \/ In x ls.
Proof.
  induction ls as [|l ls IH]; intros acc Hnd; cbn [fold_left].
  - split; [exact Hnd|]. intros x. simpl. tauto.
  - destruct (IH (setAdd l acc) (setAdd_NoDup l Hnd)) as [H1 H2].
    split; [exact H1|]. intros x. rewrite H2, setAdd_In. simpl.
    split; [intros [[->|H]|H]; auto|intros [H|[->|H]]; auto].
Qed.

Lemma present_snoc (ls : list jsstring) (l : jsstring) :
  present (ls ++ [l])
  = if shortCue l then setAdd l (present ls) else present ls.
Proof.
  unfold present. rewrite filter_app. cbn [filter].
  destruct (shortCue l); [|rewrite app_nil_r; reflexivity].
  rewrite fold_left_app. reflexivity.
Qed.

(** ** What a scene holds *)

Lemma trim_clean (raw : jsstring) : ~ In newline raw -> clean (trim raw).
Proof.
  intros H. split; [|apply RuntimeFacts.trim_idem].
  intros Hin. apply H. exact (RuntimeFacts.trim_In _ _ Hin).
Qed.

Lemma line_clean (text : jsstring) (i : nat) :
  clean (trim (nth i (split newline text) [])).
Proof.
  apply trim_clean.
  destruct (nth_in_or_default i (split newline text) []) as [H | ->];
    [|intros []].
  pose proof (RuntimeFacts.split_pieces newline text) as Hp.
  rewrite Forall_forall in Hp. exact (Hp _ H).
Qed.

Lemma joinLines_snoc (ls : list jsstring) (l : jsstring) :
  joinLines (ls ++ [l]) = joinLines ls ++ l ++ [newline].
Proof.
  unfold joinLines. rewrite flat_map_app. cbn [flat_map].
  rewrite app_nil_r. reflexivity.
Qed.

Lemma last_cons (A : Type) (x d : A) (l : list A) :
  last (x :: l) d = last l x.
Proof.
  revert x d. induction l as [|y l IH]; intros x d; [reflexivity|].
  change (last (x :: y :: l) d) with (last (y :: l) d).
  rewrite (IH y d), (IH y x). reflexivity.
Qed.

Lemma last_app (A : Type) (a b : list A) (d : A) :
  last (a ++ b) d = last b (last a d).
Proof.
  revert d. induction a as [|x a IH]; intros d; [reflexivity|].
  cbn [app]. rewrite !last_cons. apply IH.
Qed.

Lemma spoken_snoc (prev : jsstring) (ls : list jsstring) (l : jsstring) :
  spoken prev (ls ++ [l])
  = spoken prev ls
    ++ (if classified l && test cueRe (last ls prev) then [l] else []).
Proof.
  revert prev. induction ls as [|x ls IH]; intros prev.
  - cbn [app spoken last]. rewrite app_nil_r. reflexivity.
  - cbn [app spoken]. rewrite IH, last_cons, app_assoc. reflexivity.
Qed.

Lemma acted_snoc (prev : jsstring) (ls : list jsstring) (l : jsstring) :
  acted prev (ls ++ [l])
  = acted prev ls
    ++ (if classified l && negb (test cueRe (last ls prev)) then [l] else []).
Proof.
  revert prev. induction ls as [|x ls IH]; intros prev.
  - cbn [app acted last]. rewrite app_nil_r. reflexivity.
  - cbn [app acted]. rewrite IH, last_cons, app_assoc. reflexivity.
Qed.

(** Adding a line to a scene. *)
Lemma addLine_holds (lines : list jsstring) (i : nat) (line prev : jsstring)
    (ls : list jsstring) (sc : scene) :
  clean line ->
  test cueRe (last ls prev)
  = (0 <? i) && test cueRe (trim (nth (i - 1) lines [])) ->
  holds prev ls sc -> holds prev (ls ++ [line]) (addLine lines i line sc).
Proof.
  intros Hc Hprev (Hcontent & Hclean & Hd & Ha & Hpres).
  unfold holds, addLine.
  cbn [content dialogue_lines action_lines characters_present].
  rewrite spoken_snoc, acted_snoc, Hprev, <- Hd, <- Ha. unfold classified.
  split; [|split; [|split; [|split]]].
  - rewrite joinLines_snoc, Hcontent. reflexivity.
  - apply Forall_app. split; [exact Hclean|constructor; [exact Hc|constructor]].
  - destruct (test cueRe line); cbn [negb andb];
      [rewrite app_nil_r; reflexivity|].
    destruct (0 <? length line); cbn [andb];
      [|rewrite app_nil_r; reflexivity].
    destruct ((0 <? i) && test cueRe (trim (nth (i - 1) lines [])));
      [reflexivity|rewrite app_nil_r; reflexivity].
  - destruct (test cueRe line); cbn [negb andb];
      [rewrite app_nil_r; reflexivity|].
    destruct (0 <? length line); cbn [andb];
      [|destruct ((0 <? i) && test cueRe (trim (nth (i - 1) lines [])));
        rewrite app_nil_r; reflexivity].
    destruct ((0 <? i) && test cueRe (trim (nth (i - 1) lines [])));
      cbn [negb]; [rewrite app_nil_r; reflexivity|reflexivity].
  - rewrite present_snoc. unfold shortCue. rewrite (proj2 Hc), Hpres.
    reflexivity.
Qed.

Lemma openScene_holds (number pages : nat) (line prev : jsstring) :
  holds prev [] (openScene number pages line).
Proof. repeat split; constructor. Qed.

(** A scene that holds lines gives them back through its content. *)
Lemma holds_sceneLines (prev : jsstring) (ls : list jsstring) (sc : scene) :
  holds prev ls sc -> sceneLines sc = ls.
Proof.
  intros (Hcontent & Hclean & _). unfold sceneLines. rewrite Hcontent.
  unfold joinLines. rewrite RuntimeFacts.split_lines.
  - apply removelast_last.
  - eapply Forall_impl; [|exact Hclean]. intros l [H _]. exact H.
Qed.

Lemma chained_snoc (prev : jsstring) (cs : list (list jsstring))
    (scs : list scene) (c : list jsstring) (sc : scene) :
  chained prev cs scs -> holds (last (concat cs) prev) c sc ->
  chained prev (cs ++ [c]) (scs ++ [sc]).
Proof.
  revert prev scs. induction cs as [|c0 cs IH]; intros prev scs H Hc;
    destruct scs as [|s0 scs]; try contradiction.
  - split; [exact Hc|exact I].
  - destruct H as [H0 H]. split; [exact H0|].
    apply IH; [exact H|]. cbn [concat] in Hc. rewrite last_app in Hc. exact Hc.
Qed.

Lemma chained_finish (prev : jsstring) (cs : list (list jsstring))
    (scs : list scene) :
  chained prev cs scs -> chained prev cs (List.map finishScene scs).
Proof.
  revert prev scs. induction cs as [|c cs IH]; intros prev scs H;
    destruct scs as [|s scs]; try contradiction; [exact I|].
  destruct H as [H0 H]. split; [exact H0|apply IH; exact H].
Qed.

Lemma chained_sceneLines (prev : jsstring) (cs : list (list jsstring))
    (scs : list scene) :
  chained prev cs scs -> List.map sceneLines scs = cs.
Proof.
  revert prev scs. induction cs as [|c cs IH]; intros prev scs H;
    destruct scs as [|s scs]; try contradiction; [reflexivity|].
  destruct H as [H0 H]. cbn [List.map].
  rewrite (holds_sceneLines H0), (IH _ _ H). reflexivity.
Qed.

Lemma chained_Forall (prev : jsstring) (cs : list (list jsstring))
    (scs : list scene) :
  chained prev cs scs ->
  Forall (fun sc => exists p, holds p (sceneLines sc) sc) scs.
Proof.
  revert prev scs. induction cs as [|c cs IH]; intros prev scs H;
    destruct scs as [|s scs]; try contradiction; [constructor|].
  destruct H as [H0 H]. constructor; [|exact (IH _ _ H)].
  exists prev. rewrite (holds_sceneLines H0). exact H0.
Qed.

Lemma chained_chain (prev : jsstring) (cs : list (list jsstring))
    (scs : list scene) :
  chained prev cs scs ->
  List.map dialogue_lines scs = chain spoken prev cs
  /\ List.map action_lines scs = chain acted prev cs.
Proof.
  revert prev scs. induction cs as [|c cs IH]; intros prev scs H;
    destruct scs as [|s scs]; try contradiction; [split; reflexivity|].
  destruct H as [H0 H]. destruct (IH _ _ H) as [E1 E2].
  destruct H0 as (_ & _ & Hd & Ha & _).
  cbn [List.map chain]. rewrite E1, E2, Hd, Ha. split; reflexivity.
Qed.

(** ** The scan *)

Lemma firstn_S_nth (A : Type) (d : A) (l : list A) (k : nat) :
  k < length l -> firstn (S k) l = firstn k l ++ [nth k l d].
Proof.
  revert k. induction l as [|x l IH]; intros k H; [simpl in H; lia|].
  destruct k as [|k]; [reflexivity|].
  cbn [firstn nth app]. simpl in H. rewrite <- IH by lia. reflexivity.
Qed.

Lemma fromFirstHeader_snoc (l : list jsstring) (x : jsstring) :
  fromFirstHeader (l ++ [x])
  = if existsb Spec.isSceneHeader l then fromFirstHeader l ++ [x]
    else if Spec.isSceneHeader x then [x] else [].
Proof.
  induction l as [|y l IH]; cbn [app fromFirstHeader existsb].
  - destruct (Spec.isSceneHeader x); reflexivity.
  - destruct (Spec.isSceneHeader y); [reflexivity|exact IH].
Qed.

Lemma toFirstHeader_snoc (l : list jsstring) (x : jsstring) :
  toFirstHeader (l ++ [x])
  = if existsb Spec.isSceneHeader l then toFirstHeader l
    else if Spec.isSceneHeader x then l else l ++ [x].
Proof.
  induction l as [|y l IH]; cbn [app toFirstHeader existsb].
  - destruct (Spec.isSceneHeader x); reflexivity.
  - destruct (Spec.isSceneHeader y); cbn [orb]; [reflexivity|].
    rewrite IH. destruct (existsb Spec.isSceneHeader l); [reflexivity|].
    destruct (Spec.isSceneHeader x); reflexivity.
Qed.

Lemma toFirstHeader_none (l : list jsstring) :
  existsb Spec.isSceneHeader l = false -> toFirstHeader l = l.
Proof.
  induction l as [|y l IH]; cbn [toFirstHeader existsb]; [reflexivity|].
  destruct (Spec.isSceneHeader y); [discriminate|].
  intros H. rewrite (IH H). reflexivity.
Qed.

Lemma to_from_FirstHeader (l : list jsstring) :
  toFirstHeader l ++ fromFirstHeader l = l.
Proof.
  induction l as [|y l IH]; cbn [toFirstHeader fromFirstHeader];
    [reflexivity|].
  destruct (Spec.isSceneHeader y); [reflexivity|].
  cbn [app]. rewrite IH. reflexivity.
Qed.

Lemma isSceneHeader_test (raw : jsstring) :
  test headerRe (trim raw) = Spec.isSceneHeader raw.
Proof. unfold Spec.isSceneHeader. apply ParserSpec.test_headerRe. Qed.

(** The line before the line of index [k], as the loop reads it. *)
Lemma last_firstn (lines : list jsstring) (k : nat) :
  k <= length lines ->
  test cueRe (last (List.map trim (firstn k lines)) [])
  = (0 <? k) && test cueRe (trim (nth (k - 1) lines [])).
Proof.
  intros Hk. destruct k as [|k]; [reflexivity|].
  rewrite (@firstn_S_nth jsstring [] lines k) by lia.
  rewrite map_app, last_app. cbn [List.map last Nat.ltb Nat.leb andb].
  replace (S k - 1) with k by lia. reflexivity.
Qed.

(** The same line, found at the end of what has been laid out. *)
Lemma last_laid (lines : list jsstring) (k : nat) (ls : list jsstring) :
  k <= length lines ->
  ls = List.map trim (fromFirstHeader (firstn k lines)) ->
  test cueRe
    (last ls (last (List.map trim (toFirstHeader (firstn k lines))) []))
  = (0 <? k) && test cueRe (trim (nth (k - 1) lines [])).
Proof.
  intros Hk ->. rewrite <- last_app, <- map_app, to_from_FirstHeader.
  apply last_firstn. exact Hk.
Qed.

Lemma step_laid (text : jsstring) (k : nat) (st : scan) :
  k < length (split newline text) ->
  laid (split newline text) k st ->
  laid (split newline text) (S k) (step (split newline text) st k).
Proof.
  set (lines := split newline text).
  intros Hk (cs & co & Hcs & Hheads & Hcur & Hcat).
  pose proof (line_clean text k) as Hclean. fold lines in Hclean.
  set (raw := nth k lines []) in *.
  set (F := firstn k lines) in *.
  set (p := last (List.map trim (toFirstHeader F)) []) in *.
  assert (HF : firstn (S k) lines = F ++ [raw])
    by (apply (@firstn_S_nth jsstring [] lines k Hk)).
  assert (Hex' : existsb Spec.isSceneHeader (firstn (S k) lines)
                 = existsb Spec.isSceneHeader F || Spec.isSceneHeader raw).
  { rewrite HF, existsb_app. cbn [existsb].
    rewrite orb_false_r. reflexivity. }
  assert (Hff : fromFirstHeader (firstn (S k) lines)
                = if existsb Spec.isSceneHeader F
                  then fromFirstHeader F ++ [raw]
                  else if Spec.isSceneHeader raw then [raw] else []).
  { rewrite HF. apply fromFirstHeader_snoc. }
  assert (Htf : toFirstHeader (firstn (S k) lines)
                = if existsb Spec.isSceneHeader F then toFirstHeader F
                  else if Spec.isSceneHeader raw then F else F ++ [raw]).
  { rewrite HF. apply toFirstHeader_snoc. }
  assert (Hprev : forall ls,
             ls = List.map trim (fromFirstHeader F) ->
             test cueRe (last ls p)
             = (0 <? k) && test cueRe (trim (nth (k - 1) lines []))).
  { intros ls E. apply last_laid; [lia|exact E]. }
  unfold laid, step. rewrite isSceneHeader_test. fold raw.
  cbv zeta. rewrite Htf.
  destruct (Spec.isSceneHeader raw) eqn:Hh.
  - (* a header *)
    assert (Hline : test headerRe (trim raw) = true)
      by (rewrite isSceneHeader_test; exact Hh).
    assert (Hhead : headed [trim raw])
      by (exists (trim raw), []; repeat split; [exact Hline|constructor]).
    destruct (currentScene st) as [sc|] eqn:Hc; destruct co as [c|];
      try contradiction.
    + destruct Hcur as (Hsc & Hc' & Hex). rewrite Hex in *.
      assert (Hnew : holds (last (concat (cs ++ [c])) p) [trim raw]
                       (addLine lines k (trim raw)
                          (openScene (S (sceneNumber st)) (pageCount st)
                             (trim raw)))).
      { apply (@addLine_holds lines k (trim raw) _ [] _ Hclean);
          [|apply openScene_holds].
        cbn [last]. apply Hprev.
        rewrite concat_app. cbn [concat]. rewrite app_nil_r. exact Hcat. }
      exists (cs ++ [c]), (Some [trim raw]).
      destruct (k mod 60 =? 0);
        unfold pushCurrent;
        cbn [currentScene scenes sceneNumber pageCount]; rewrite Hc;
        (split; [apply chained_snoc; [exact Hcs|exact Hsc]|]);
        (split; [apply Forall_app; split;
                 [exact Hheads|constructor; [exact Hc'|constructor]]|]);
        (split; [split; [exact Hnew|split; [exact Hhead|rewrite Hex'; reflexivity]]|]);
        rewrite Hff, concat_app, map_app; cbn [concat List.map];
        rewrite app_nil_r, <- Hcat; reflexivity.
    + destruct Hcur as (-> & Hex). rewrite Hex in *.
      assert (Es : scenes st = [])
        by (destruct (scenes st); [reflexivity|contradiction]).
      assert (Hnew : holds (last (List.map trim F) []) [trim raw]
                       (addLine lines k (trim raw)
                          (openScene (S (sceneNumber st)) (pageCount st)
                             (trim raw)))).
      { apply (@addLine_holds lines k (trim raw) _ [] _ Hclean);
          [|apply openScene_holds].
        cbn [last]. apply last_firstn. lia. }
      exists [], (Some [trim raw]).
      destruct (k mod 60 =? 0);
        unfold pushCurrent;
        cbn [currentScene scenes sceneNumber pageCount]; rewrite Hc;
        rewrite Es;
        (split; [exact I|]);
        (split; [constructor|]);
        (split; [split; [exact Hnew|split; [exact Hhead|rewrite Hex'; reflexivity]]|]);
        rewrite Hff; reflexivity.
  - (* not a header *)
    assert (Hline : test headerRe (trim raw) = false)
      by (rewrite isSceneHeader_test; exact Hh).
    destruct (currentScene st) as [sc|] eqn:Hc; destruct co as [c|];
      try contradiction.
    + destruct Hcur as (Hsc & (h & rest & -> & Hh1 & Hrest) & Hex).
      rewrite Hex in *.
      assert (Hnew : holds (last (concat cs) p) ((h :: rest) ++ [trim raw])
                       (addLine lines k (trim raw) sc)).
      { apply (@addLine_holds lines k (trim raw) _ _ _ Hclean); [|exact Hsc].
        rewrite <- last_app. apply Hprev. exact Hcat. }
      exists cs, (Some ((h :: rest) ++ [trim raw])).
      destruct (k mod 60 =? 0);
        cbn [currentScene scenes sceneNumber pageCount]; rewrite ?Hc;
        cbn [currentScene scenes sceneNumber pageCount];
        (split; [exact Hcs|]);
        (split; [exact Hheads|]);
        (split; [split;
                 [exact Hnew
                 |split;
                  [exists h, (rest ++ [trim raw]); split; [reflexivity|];
                   split; [exact Hh1|];
                   apply Forall_app; split;
                     [exact Hrest|constructor; [exact Hline|constructor]]
                  |rewrite Hex'; reflexivity]]|]);
        rewrite Hff, app_assoc, Hcat, map_app; reflexivity.
    + destruct Hcur as (-> & Hex). rewrite Hex in *.
      exists [], None.
      destruct (k mod 60 =? 0);
        cbn [currentScene scenes sceneNumber pageCount]; rewrite ?Hc;
        cbn [currentScene scenes sceneNumber pageCount];
        (split; [exact Hcs|]); (split; [constructor|]);
        (split; [split; [reflexivity|rewrite Hex'; reflexivity]|]);
        rewrite Hff; reflexivity.
Qed.

Lemma scanTo_laid (text : jsstring) (k : nat) :
  k <= length (split newline text) ->
  laid (split newline text) k (scanTo (split newline text) k).
Proof.
  induction k as [|k IH]; intros Hk.
  - exists [], None. repeat split; constructor.
  - rewrite ScanFacts.scanTo_S. apply step_laid; [lia|apply IH; lia].
Qed.

(** The scenes of [extractScenes] hold, group by group, the trimmed lines
    of the script from the first header on. *)
Lemma extractScenes_laid (text : jsstring) :
  exists cs : list (list jsstring),
    chained (last (List.map trim (toFirstHeader (split newline text))) [])
      cs (extractScenes text)
    /\ Forall headed cs
    /\ concat cs = List.map trim (fromFirstHeader (split newline text)).
Proof.
  rewrite ScanFacts.extractScenes_scanTo.
  set (lines := split newline text).
  destruct (@scanTo_laid text (length lines) (le_n _))
    as (cs & co & Hcs & Hheads & Hcur & Hcat).
  fold lines in Hcs, Hheads, Hcur, Hcat. cbv zeta in Hcs, Hcur.
  rewrite firstn_all in Hcs, Hcur, Hcat.
  unfold pushCurrent.
  destruct (currentScene (scanTo lines (length lines))) as [sc|];
    destruct co as [c|]; try contradiction.
  - destruct Hcur as (Hsc & Hc & _).
    exists (cs ++ [c]). split; [|split].
    + apply chained_finish, chained_snoc; [exact Hcs|exact Hsc].
    + apply Forall_app. split; [exact Hheads|constructor; [exact Hc|constructor]].
    + rewrite concat_app. cbn [concat]. rewrite app_nil_r. exact Hcat.
  - destruct Hcur as (-> & _). exists []. split; [|split].
    + apply chained_finish. exact Hcs.
    + constructor.
    + rewrite app_nil_r in Hcat. exact Hcat.
Qed.

End LineFacts.

(* ================================================================== *)
(** * Properties of the lines of a scene and of the dialogue           *)
(* ================================================================== *)

Module SceneExtra.
Import JS Parser Notions.
Local Open Scope nat_scope.

(** X7: the scenes of [extractScenes] share out the script from its first
    scene header on: put end to end, the lines of their [content] are the
    trimmed lines of the script from the first header, none lost and none
    repeated.  Each scene starts with a header line and holds no other,
    and its [content] is its lines, each followed by a line feed. *)
Theorem scenes_share_out_the_lines (text : jsstring) :
  concat (List.map sceneLines (extractScenes text))
  = List.map trim (fromFirstHeader (split newline text))
  /\ Forall (fun sc => headed (sceneLines sc)
                       /\ content sc = joinLines (sceneLines sc))
       (extractScenes text).
Proof.
  destruct (LineFacts.extractScenes_laid text) as (cs & Hcs & Hheads & Hcat).
  pose proof (LineFacts.chained_sceneLines _ _ _ Hcs) as E.
  split; [rewrite E; exact Hcat|].
  pose proof (LineFacts.chained_Forall _ _ _ Hcs) as Hall.
  rewrite <- E in Hheads. rewrite Forall_map in Hheads.
  rewrite Forall_forall in *. intros sc Hsc. split; [exact (Hheads sc Hsc)|].
  destruct (Hall sc Hsc) as (p & Hc & _). exact Hc.
Qed.

(** X8: [dialogue_lines] and [action_lines] of the scenes of [extractScenes]:
    the dialogue lines of a scene are, in order, its lines that are neither
    empty nor a cue and come directly after a cue; its action lines are its
    other lines that are neither empty nor a cue.  The line before the
    first line of a scene is the last line of the scene before it, and for
    the first scene the last line before the first header. *)
Theorem dialogue_follows_a_cue (text : jsstring) :
  let before :=
    last (List.map trim (toFirstHeader (split newline text))) [] in
  let groups := List.map sceneLines (extractScenes text) in
  List.map dialogue_lines (extractScenes text) = chain spoken before groups
  /\ List.map action_lines (extractScenes text) = chain acted before groups.
Proof.
  cbv zeta.
  destruct (LineFacts.extractScenes_laid text) as (cs & Hcs & _ & _).
  rewrite (LineFacts.chained_sceneLines _ _ _ Hcs).
  exact (LineFacts.chained_chain _ _ _ Hcs).
Qed.

(** X9: [characters_present] of a scene of [extractScenes] has no name twice,
    and holds exactly the lines of the scene that are cues of fewer than
    30 characters. *)
Theorem characters_present_are_the_short_cues (text : jsstring) :
  Forall (fun sc =>
            NoDup (characters_present sc)
            /\ forall n, In n (characters_present sc)
                         <-> In n (sceneLines sc) /\ shortCue n = true)
    (extractScenes text).
Proof.
  destruct (LineFacts.extractScenes_laid text) as (cs & Hcs & _ & _).
  pose proof (LineFacts.chained_Forall _ _ _ Hcs) as Hall.
  eapply Forall_impl; [|exact Hall].
  intros sc (p & _ & _ & _ & _ & Hp). rewrite Hp. unfold present.
  destruct (LineFacts.setAdd_all (filter shortCue (sceneLines sc)) (NoDup_nil _))
    as [Hnd Hin].
  split; [exact Hnd|].
  intros n. rewrite Hin, filter_In. simpl. tauto.
Qed.

End SceneExtra.

(* ================================================================== *)
(** * Properties of extractDialogue                                     *)
(* ================================================================== *)

Module DialogueFacts.
Import JS Parser Notions.
Local Open Scope nat_scope.

Section Lower.

Variable lower : jsstring -> jsstring.

(** The lines pushed so far play no part in what [speak] does next. *)
Lemma speak_app (num : nat) (c : option jsstring) (n : nat)
    (acc acc' : list dialogueLine) (l : jsstring) :
  speak lower num (Speech c n (acc ++ acc')) l
  = let r := speak lower num (Speech c n acc') l in
    Speech (currentCharacter r) (lineNumber r) (acc ++ dialogue r).
Proof.
  unfold speak. cbn [currentCharacter lineNumber dialogue].
  destruct (test cueRe (trim l) && (length (trim l) <? 30)); [reflexivity|].
  destruct c as [who|]; [|reflexivity].
  destruct ((0 <? length (trim l)) && negb (test directiveRe (trim l)));
    [|reflexivity].
  cbn [currentCharacter lineNumber dialogue]. rewrite app_assoc. reflexivity.
Qed.

Lemma speak_fold_app (num : nat) (ls : list jsstring) :
  forall (c : option jsstring) (n : nat) (acc acc' : list dialogueLine),
    dialogue (fold_left (speak lower num) ls (Speech c n (acc ++ acc')))
    = acc ++ dialogue (fold_left (speak lower num) ls (Speech c n acc')).
Proof.
  induction ls as [|l ls IH]; intros c n acc acc'; cbn [fold_left];
    [reflexivity|].
  rewrite speak_app. cbv zeta.
  destruct (speak lower num (Speech c n acc') l) as [c' n' d'].
  cbn [currentCharacter lineNumber dialogue]. apply IH.
Qed.

Lemma sceneDialogue_app (acc : list dialogueLine) (sc : scene) :
  sceneDialogue lower acc sc = acc ++ sceneDialogue lower [] sc.
Proof.
  unfold sceneDialogue. rewrite <- (app_nil_r acc) at 1.
  apply speak_fold_app.
Qed.

Lemma fold_sceneDialogue (scs : list scene) :
  forall acc,
    fold_left (sceneDialogue lower) scs acc
    = acc ++ flat_map (sceneDialogue lower []) scs.
Proof.
  induction scs as [|sc scs IH]; intros acc; cbn [fold_left flat_map];
    [rewrite app_nil_r; reflexivity|].
  rewrite IH, sceneDialogue_app, app_assoc. reflexivity.
Qed.


Lemma extractDialogue_flat (scs : list scene) :
  extractDialogue lower scs = flat_map (sceneDialogue lower []) scs.
Proof. unfold extractDialogue. rewrite fold_sceneDialogue. reflexivity. Qed.

Lemma pushed_later (num : nat) (cur cur' : option jsstring) (l : jsstring)
    (ls : list jsstring) (d : dialogueLine) :
  (cur' = cur \/ (cur' = Some (trim l) /\ shortCue (trim l) = true)) ->
  pushed num cur' ls d -> pushed num cur (l :: ls) d.
Proof.
  intros Hcur (Hn & Hc & Ht & Hs & Hl & Hd).
  repeat split; try assumption.
  - destruct Hc as [Hc|[Hc Hc']].
    + destruct Hcur as [->|[-> Hs']]; [left; exact Hc|].
      right. injection Hc as ->. split; [left; reflexivity|exact Hs'].
    + right. split; [right; exact Hc|exact Hc'].
  - right. exact Ht.
Qed.

Lemma speak_lines (num : nat) (ls : list jsstring) :
  forall sp : speech,
    exists new : list dialogueLine,
      dialogue (fold_left (speak lower num) ls sp) = dialogue sp ++ new
      /\ List.map d_line_number new = seq (S (lineNumber sp)) (length new)
      /\ Forall (pushed num (currentCharacter sp) ls) new.
Proof.
  induction ls as [|l ls IH]; intros sp; cbn [fold_left].
  - exists []. rewrite app_nil_r. repeat split. constructor.
  - destruct (test cueRe (trim l) && (length (trim l) <? 30)) eqn:Hcue.
    + assert (Es : speak lower num sp l
                   = Speech (Some (trim l)) (lineNumber sp) (dialogue sp))
        by (unfold speak; rewrite Hcue; reflexivity).
      rewrite Es. destruct (IH (Speech (Some (trim l)) (lineNumber sp)
                                  (dialogue sp))) as (new & Hd & Hn & Hp).
      cbn [currentCharacter lineNumber dialogue] in Hd, Hn, Hp.
      exists new. split; [exact Hd|split; [exact Hn|]].
      eapply Forall_impl; [|exact Hp]. intros d.
      apply pushed_later. right. split; [reflexivity|exact Hcue].
    + destruct (currentCharacter sp) as [who|] eqn:Hwho.
      * destruct ((0 <? length (trim l)) && negb (test directiveRe (trim l)))
          eqn:Hok.
        -- set (d0 := DialogueLine num who (S (lineNumber sp)) (trim l)
                        (length (split space (trim l)))
                        (detectTone lower (trim l))).
           assert (Es : speak lower num sp l
                        = Speech (Some who) (S (lineNumber sp))
                            (dialogue sp ++ [d0]))
             by (unfold speak; rewrite Hcue, Hwho, Hok; reflexivity).
           rewrite Es.
           destruct (IH (Speech (Some who) (S (lineNumber sp))
                           (dialogue sp ++ [d0]))) as (new & Hd & Hn & Hp).
           cbn [currentCharacter lineNumber dialogue] in Hd, Hn, Hp.
           exists (d0 :: new). rewrite <- app_assoc in Hd.
           split; [exact Hd|]. cbn [List.map length seq].
           split; [rewrite Hn; reflexivity|].
           apply andb_true_iff in Hok. destruct Hok as [Hlen Hdir].
           apply Nat.ltb_lt in Hlen. apply negb_true_iff in Hdir.
           constructor.
           ++ unfold pushed, d0. cbn [d_scene_number d_character d_text].
              split; [reflexivity|]. split; [left; reflexivity|].
              split; [left; reflexivity|].
              split; [exact Hcue|]. split; [exact Hlen|exact Hdir].
           ++ eapply Forall_impl; [|exact Hp]. intros d.
              apply pushed_later. left. reflexivity.
        -- assert (Es : speak lower num sp l = sp)
             by (unfold speak; rewrite Hcue, Hwho, Hok; reflexivity).
           rewrite Es. destruct (IH sp) as (new & Hd & Hn & Hp).
           rewrite Hwho in Hp.
           exists new. split; [exact Hd|split; [exact Hn|]].
           eapply Forall_impl; [|exact Hp]. intros d.
           apply pushed_later. left. reflexivity.
      * assert (Es : speak lower num sp l = sp)
          by (unfold speak; rewrite Hcue, Hwho; reflexivity).
        rewrite Es. destruct (IH sp) as (new & Hd & Hn & Hp).
        rewrite Hwho in Hp.
        exists new. split; [exact Hd|split; [exact Hn|]].
        eapply Forall_impl; [|exact Hp]. intros d.
        apply pushed_later. left. reflexivity.
Qed.

Lemma sceneDialogue_lines (sc : scene) :
  List.map d_line_number (sceneDialogue lower [] sc)
  = seq 1 (length (sceneDialogue lower [] sc))
  /\ Forall (pushed (scene_number sc) None (split newline (content sc)))
       (sceneDialogue lower [] sc).
Proof.
  unfold sceneDialogue.
  destruct (speak_lines (scene_number sc) (split newline (content sc))
              (Speech None 0 [])) as (new & Hd & Hn & Hp).
  cbn [dialogue lineNumber currentCharacter app] in Hd, Hn, Hp.
  rewrite Hd. split; [exact Hn|exact Hp].
Qed.

End Lower.

End DialogueFacts.

Module DialogueExtra.
Import JS Parser Notions.
Local Open Scope nat_scope.

(** X10: [extractDialogue] works scene by scene: the dialogue of a list of
    scenes is the dialogue of each scene alone, one after the other. *)
Theorem extractDialogue_scene_by_scene (lower : jsstring -> jsstring)
    (scenes : list scene) :
  extractDialogue lower scenes
  = flat_map (fun sc => extractDialogue lower [sc]) scenes.
Proof. apply DialogueFacts.extractDialogue_flat. Qed.


(** X12: on the scenes of [extractScenes], every line of [extractDialogue] is
    spoken by a character of [characters_present] of the scene it bears
    the number of. *)
Theorem speakers_are_present (lower : jsstring -> jsstring)
    (text : jsstring) :
  Forall (fun d =>
            exists sc, In sc (extractScenes text)
                       /\ scene_number sc = d_scene_number d
                       /\ In (d_character d) (characters_present sc))
    (extractDialogue lower (extractScenes text)).
Proof.
  rewrite DialogueFacts.extractDialogue_flat.
  destruct (LineFacts.extractScenes_laid text) as (cs & Hcs & _ & _).
  pose proof (LineFacts.chained_Forall _ _ _ Hcs) as Hall.
  rewrite Forall_forall in *. intros d Hd.
  apply in_flat_map in Hd. destruct Hd as (sc & Hsc & Hd).
  exists sc. split; [exact Hsc|].
  destruct (DialogueFacts.sceneDialogue_lines lower sc) as [_ Hp].
  rewrite Forall_forall in Hp.
  destruct (Hp d Hd) as (H1 & [H2|[H2 H2']] & _); [discriminate|].
  split; [symmetry; exact H1|].
  destruct (Hall sc Hsc) as (p & Hcontent & Hclean & _ & _ & Hpres).
  rewrite Hpres. unfold present.
  destruct (LineFacts.setAdd_all (filter shortCue (sceneLines sc))
              (NoDup_nil _)) as [_ Hin].
  apply Hin. right. apply filter_In. split; [|exact H2'].
  rewrite Hcontent in H2. unfold joinLines in H2.
  rewrite RuntimeFacts.split_lines in H2
    by (eapply Forall_impl; [|exact Hclean]; intros l [H _]; exact H).
  rewrite map_app, in_app_iff in H2. destruct H2 as [H2|[H2|[]]].
  - apply in_map_iff in H2. destruct H2 as (l & El & Hl).
    rewrite Forall_forall in Hclean. destruct (Hclean l Hl) as [_ Et].
    rewrite Et in El. subst l. exact Hl.
  - rewrite <- H2 in H2'. discriminate H2'.
Qed.

End DialogueExtra.

(* ================================================================== *)
(** * Properties of the registry and of beat timing                     *)
(* ================================================================== *)

Module AnalysisSpec.
Import JS Parser Notions Analysis.
Local Open Scope nat_scope.

(** ** checkBeatTiming on the beats of identifyBeats *)

Ltac eval_lookup :=
  repeat match goal with
  | |- context [Generator.own ?k standards] =>
      let v := eval vm_compute in (Generator.own k standards) in
      change (Generator.own k standards) with v
  | |- context [Generator.inherited ?k] =>
      let v := eval vm_compute in (Generator.inherited k) in
      change (Generator.inherited k) with v
  end.

(** A beat read off a scene in the window of its template counts as
    accurate when its type has a standard, and is passed over otherwise. *)
Lemma checkBeat_windowed (t : tally) (b : beat) :
  (exists tp, In tp beatTemplates /\ beat_type b = Parser.name tp
              /\ fst (range tp) <= page_number b <= snd (range tp)) ->
  checkBeat (Normal t) b =
  Normal (if standardBeat b then Tally (S (accurate t)) (S (total t)) else t).
Proof.
  intros (tp & Htp & Hty & Hlo & Hhi).
  unfold checkBeat, standardBeat. rewrite Hty.
  cbn [beatTemplates In] in Htp.
  destruct Htp as [<-|[<-|[<-|[<-|[<-|[<-|[<-|[]]]]]]]];
    cbn [Parser.name range fst snd] in *; eval_lookup; cbv beta iota;
    try reflexivity;
    rewrite (proj2 (Nat.leb_le _ _) Hlo), (proj2 (Nat.leb_le _ _) Hhi);
    reflexivity.
Qed.

Lemma checkBeats_windowed (beats : list beat) :
  Forall (fun b => exists tp, In tp beatTemplates /\ beat_type b = Parser.name tp
                     /\ fst (range tp) <= page_number b <= snd (range tp))
         beats ->
  forall t,
    fold_left checkBeat beats (Normal t) =
    Normal (Tally (accurate t + length (filter standardBeat beats))
                  (total t + length (filter standardBeat beats))).
Proof.
  induction 1 as [|b beats Hb _ IH]; intros t; cbn [fold_left filter].
  - rewrite !Nat.add_0_r. destruct t; reflexivity.
  - rewrite (@checkBeat_windowed t b Hb).
    destruct (standardBeat b); rewrite IH; cbn [accurate total length];
      f_equal; f_equal; lia.
Qed.

(** X13: on the beats [identifyBeats] returns, [checkBeatTiming] does not
    throw and measures nothing: the accuracy is 100 as soon as one beat of
    a type with a standard (Inciting Incident, End of Act 1, Midpoint,
    Climax) was found, because the standards are the windows the beats were
    found in, and 0 when none was. *)
Theorem checkBeatTiming_of_identifyBeats (scenes : list scene)
    (fullText : jsstring) :
  exists q : Q,
    checkBeatTiming (identifyBeats scenes fullText) = Normal q
    /\ if existsb standardBeat (identifyBeats scenes fullText)
       then (q == 100)%Q else (q == 0)%Q.
Proof.
  assert (Hw : Forall (fun b => exists tp, In tp beatTemplates
                          /\ beat_type b = Parser.name tp
                          /\ fst (range tp) <= page_number b <= snd (range tp))
                      (identifyBeats scenes fullText)).
  { apply Forall_forall. intros b Hb. unfold identifyBeats in Hb.
    apply in_flat_map in Hb. destruct Hb as [tp [Htp Hb]].
    exists tp. split; [exact Htp|]. exact (ParserSpec.beatFor_in_range _ _ _ Hb). }
  unfold checkBeatTiming. rewrite (@checkBeats_windowed _ Hw (Tally 0 0)).
  cbn [accurate total Nat.add].
  set (beats := identifyBeats scenes fullText).
  assert (Hex : existsb standardBeat beats
                = (0 <? length (filter standardBeat beats))).
  { induction beats as [|b bs IH]; [reflexivity|].
    cbn [existsb filter]. destruct (standardBeat b); [reflexivity|exact IH]. }
  rewrite Hex. eexists. split; [reflexivity|].
  destruct (length (filter standardBeat beats)) as [|m]; [reflexivity|].
  cbn [Nat.ltb Nat.leb].
  unfold Qdiv. rewrite Qmult_inv_r; [reflexivity|].
  unfold Qeq. cbn [Qnum Qden inject_Z]. lia.
Qed.

(** ** extractCharacters *)

Lemma visitScene_pairs (sc : scene) (names : list jsstring) :
  forall m,
    fold_left (visit sc) names m
    = fold_left (fun m p => visit (fst p) m (snd p)) (List.map (pair sc) names) m.
Proof.
  induction names as [|n names IH]; intros m; [reflexivity|].
  cbn [fold_left List.map fst snd]. apply IH.
Qed.

Lemma characterMap_registry (scenes : list scene) :
  forall m,
    fold_left visitScene scenes m
    = fold_left (fun m p => visit (fst p) m (snd p)) (appearances scenes) m.
Proof.
  induction scenes as [|sc scenes IH]; intros m; [reflexivity|].
  cbn [fold_left appearances flat_map]. rewrite fold_left_app, IH.
  unfold visitScene. rewrite visitScene_pairs. reflexivity.
Qed.

Lemma entryOf_snoc (k : jsstring) (occ : list (scene * jsstring))
    (p : scene * jsstring) (c : character) :
  entryOf k occ = Some c ->
  entryOf k (occ ++ [p])
  = Some (Character (name c) (first_appearance c)
            (scenes_in c ++ [scene_number (fst p)])
            (total_lines c + length (dialogue_lines (fst p)))
            (dialogue_samples c)).
Proof.
  destruct occ as [|q occ]; [discriminate|].
  intros [= <-].
  cbn [name first_appearance scenes_in total_lines dialogue_samples].
  set (f := fun q0 : scene * jsstring => scene_number (fst q0)).
  set (g := fun q0 : scene * jsstring => length (dialogue_lines (fst q0))).
  assert (E1 : List.map f (q :: occ ++ [p]) = (f q :: List.map f occ) ++ [f p])
    by (cbn [List.map app]; rewrite map_app; reflexivity).
  assert (E2 : list_sum (List.map g (q :: occ ++ [p]))
               = g q + list_sum (List.map g occ) + g p).
  { change (q :: occ ++ [p]) with ((q :: occ) ++ [p]).
    rewrite map_app, list_sum_app. cbn [List.map].
    change (list_sum (g q :: List.map g occ))
      with (g q + list_sum (List.map g occ)).
    change (list_sum [g p]) with (g p + 0). lia. }
  cbn [app entryOf]. fold f. fold g. rewrite E1, E2. reflexivity.
Qed.

(** The registry maps each name to the entry of its appearances, and holds
    each name once. *)
Lemma registry_entries (l : list (scene * jsstring)) :
  NoDup (List.map fst (registry l))
  /\ forall k, Generator.own k (registry l)
              = entryOf k (filter (fun p => eqs (snd p) k) l).
Proof.
  induction l as [|[sc n] l [IHnd IH]] using rev_ind.
  - split; [constructor|reflexivity].
  - unfold registry in *. rewrite fold_left_app. cbn [fold_left fst snd].
    set (m := fold_left (fun m p => visit (fst p) m (snd p)) l []) in *.
    unfold visit.
    destruct (Generator.own n m) as [c|] eqn:En.
    + (* the name is known *)
      rewrite En. split; [apply RuntimeFacts.put_NoDup, IHnd|].
      intros k. rewrite filter_app. cbn [filter snd].
      destruct (eqs n k) eqn:Ek.
      * apply JSFacts.eqs_eq in Ek. subst k.
        rewrite RuntimeFacts.own_put_same.
        rewrite IH in En. symmetry. exact (@entryOf_snoc n _ (sc, n) c En).
      * rewrite app_nil_r, RuntimeFacts.own_put_other; [apply IH|].
        intros ->. rewrite JSFacts.eqs_refl in Ek. discriminate.
    + (* a new name *)
      rewrite RuntimeFacts.own_put_same.
      split; [apply RuntimeFacts.put_NoDup, RuntimeFacts.put_NoDup, IHnd|].
      intros k. rewrite filter_app. cbn [filter snd].
      destruct (eqs n k) eqn:Ek.
      * apply JSFacts.eqs_eq in Ek. subst k.
        rewrite RuntimeFacts.own_put_same.
        rewrite IH in En.
        destruct (filter (fun p => eqs (snd p) n) l); [|discriminate En].
        cbn [app entryOf name first_appearance scenes_in total_lines
             dialogue_samples List.map list_sum fst].
        change (list_sum [length (dialogue_lines sc)])
          with (length (dialogue_lines sc) + 0).
        rewrite Nat.add_0_r. reflexivity.
      * rewrite app_nil_r, !RuntimeFacts.own_put_other; [apply IH| |];
          intros ->; rewrite JSFacts.eqs_refl in Ek; discriminate.
Qed.

Lemma extractCharacters_registry (scenes : list scene) :
  extractCharacters scenes
  = sortBy byLines (List.map snd (registry (appearances scenes))).
Proof.
  unfold extractCharacters, registry. rewrite characterMap_registry. reflexivity.
Qed.

(** An entry of the result is the entry of the registry under its name. *)
Lemma extractCharacters_In (scenes : list scene) (c : character) :
  In c (extractCharacters scenes) <->
  exists k, entryOf k (appearancesOf k scenes) = Some c.
Proof.
  rewrite extractCharacters_registry.
  destruct (registry_entries (appearances scenes)) as [Hnd Hown].
  split.
  - intros H.
    apply (Permutation_in _ (RuntimeFacts.sortBy_perm total_lines _)) in H.
    apply in_map_iff in H. destruct H as [[k c'] [E Hin]]. cbn [snd] in E. subst c'.
    exists k. unfold appearancesOf. rewrite <- Hown.
    apply RuntimeFacts.In_own; assumption.
  - intros [k Hk]. unfold appearancesOf in Hk. rewrite <- Hown in Hk.
    apply (Permutation_in _
             (Permutation_sym (RuntimeFacts.sortBy_perm total_lines _))).
    apply RuntimeFacts.own_In in Hk.
    apply (in_map snd) in Hk. exact Hk.
Qed.

(** X14: an entry of the registry describes the appearances of its name, in
    the order the scenes are visited: it has at least one; the first gives
    [first_appearance]; [scenes_in] lists the scene numbers; [total_lines]
    adds up all the dialogue lines of those scenes, whoever speaks them;
    and [dialogue_samples] is empty. *)
Theorem extractCharacters_entry (scenes : list scene) (c : character) :
  In c (extractCharacters scenes) ->
  exists p occ,
    appearancesOf (name c) scenes = p :: occ
    /\ first_appearance c = page_start (fst p)
    /\ scenes_in c = List.map (fun q => scene_number (fst q)) (p :: occ)
    /\ total_lines c
       = list_sum (List.map (fun q => length (dialogue_lines (fst q))) (p :: occ))
    /\ dialogue_samples c = [].
Proof.
  intros H. apply extractCharacters_In in H. destruct H as [k Hk].
  destruct (appearancesOf k scenes) as [|p occ] eqn:E; [discriminate Hk|].
  injection Hk as <-. cbn [name]. exists p, occ. rewrite E. repeat split.
Qed.

(** X15: the registry holds every name that some scene lists as present,
    and holds it once. *)
Theorem extractCharacters_names (scenes : list scene) :
  NoDup (List.map name (extractCharacters scenes))
  /\ forall n,
       In n (List.map name (extractCharacters scenes))
       <-> exists sc, In sc scenes /\ In n (characters_present sc).
Proof.
  assert (Hname : forall c, In c (extractCharacters scenes) ->
                    exists k, name c = k
                      /\ entryOf k (appearancesOf k scenes) = Some c).
  { intros c H. apply extractCharacters_In in H. destruct H as [k Hk].
    exists k. split; [|exact Hk].
    destruct (appearancesOf k scenes); [discriminate Hk|].
    injection Hk as <-. reflexivity. }
  split.
  - (* two entries of one name are one entry *)
    rewrite extractCharacters_registry.
    destruct (registry_entries (appearances scenes)) as [Hnd Hown].
    eapply Permutation_NoDup;
      [apply Permutation_map, Permutation_sym,
         (RuntimeFacts.sortBy_perm total_lines)|].
    assert (Hkeys : List.map name (List.map snd (registry (appearances scenes)))
                    = List.map fst (registry (appearances scenes))).
    { rewrite map_map. apply map_ext_in. intros [k c] Hin. cbn [fst snd].
      apply RuntimeFacts.In_own in Hin; [|exact Hnd].
      rewrite Hown in Hin.
      destruct (filter (fun p => eqs (snd p) k) (appearances scenes));
        [discriminate Hin|].
      injection Hin as <-. reflexivity. }
    rewrite Hkeys. exact Hnd.
  - intros n. split.
    + intros H. apply in_map_iff in H. destruct H as [c [Hc Hin]].
      destruct (Hname c Hin) as [k [Hk He]]. rewrite Hc in Hk. subst k.
      destruct (appearancesOf n scenes) as [|[sc n'] occ] eqn:E;
        [discriminate He|].
      assert (Hp : In (sc, n') (appearancesOf n scenes))
        by (rewrite E; left; reflexivity).
      unfold appearancesOf in Hp. apply filter_In in Hp.
      destruct Hp as [Hp Heq]. cbn [snd] in Heq.
      apply JSFacts.eqs_eq in Heq. subst n'.
      unfold appearances in Hp. apply in_flat_map in Hp.
      destruct Hp as [sc' [Hsc Hp]]. apply in_map_iff in Hp.
      destruct Hp as [x [[= <- <-] Hx]]. exists sc'. split; assumption.
    + intros [sc [Hsc Hn]].
      assert (Hp : In (sc, n) (appearancesOf n scenes)).
      { unfold appearancesOf. apply filter_In. split.
        - unfold appearances. apply in_flat_map. exists sc.
          split; [exact Hsc|]. apply in_map. exact Hn.
        - apply JSFacts.eqs_refl. }
      destruct (appearancesOf n scenes) as [|p occ] eqn:E; [contradiction|].
      apply in_map_iff.
      eexists. split; [|apply extractCharacters_In; exists n; rewrite E;
                        reflexivity].
      reflexivity.
Qed.

(** X16: the registry is returned by decreasing [total_lines], and holds
    the entries of the map, neither more nor fewer. *)
Theorem extractCharacters_sorted (scenes : list scene) :
  StronglySorted (fun a b => total_lines b <= total_lines a)
                 (extractCharacters scenes)
  /\ Permutation (extractCharacters scenes)
                 (List.map snd (fold_left visitScene scenes [])).
Proof.
  unfold extractCharacters. split.
  - apply (RuntimeFacts.sortBy_sorted total_lines).
  - apply (RuntimeFacts.sortBy_perm total_lines).
Qed.

(** ** At a concrete script *)

Lemma extractCharacters_entry_witness :
  In Samples.anna (extractCharacters (extractScenes Samples.kitchen))
  /\ exists p occ,
       appearancesOf (name Samples.anna) (extractScenes Samples.kitchen)
       = p :: occ
       /\ first_appearance Samples.anna = page_start (fst p)
       /\ scenes_in Samples.anna
          = List.map (fun q => scene_number (fst q)) (p :: occ)
       /\ total_lines Samples.anna
          = list_sum (List.map (fun q => length (dialogue_lines (fst q)))
                        (p :: occ))
       /\ dialogue_samples Samples.anna = [].
Proof.
  assert (H : In Samples.anna (extractCharacters (extractScenes Samples.kitchen)))
    by (vm_compute; left; reflexivity).
  split; [exact H|].
  exact (@extractCharacters_entry (extractScenes Samples.kitchen) Samples.anna H).
Defined.

End AnalysisSpec.

(* ================================================================== *)
(** * Further properties of the outline generator                       *)
(* ================================================================== *)

Module GeneratorFacts.
Import JS Generator GeneratorNotions.
Local Open Scope nat_scope.

(** ** Grouping the rows by beat type *)

Lemma groupBeat_rejected (rows : list beatRow) (e : exn) :
  fold_left groupBeat rows (Rejected e) = Rejected e.
Proof. induction rows as [|r rows IH]; [reflexivity|exact IH]. Qed.

Lemma plainKeys_put (A : Type) (k : jsstring) (v : A) (o : object A) :
  inherited k = false -> plainKeys o -> plainKeys (put k v o).
Proof.
  intros Hk Ho k' Hk'. rewrite RuntimeFacts.own_put_other; [exact (Ho k' Hk')|].
  intros ->. rewrite Hk in Hk'. discriminate.
Qed.

Lemma plainKeys_own (A : Type) (k : jsstring) (v : A) (o : object A) :
  plainKeys o -> own k o = Some v -> inherited k = false.
Proof.
  intros Ho Hv. destruct (inherited k) eqn:E; [|reflexivity].
  rewrite (Ho k E) in Hv. discriminate.
Qed.

(** A row named as a member of [Object.prototype] makes the grouping
    throw. *)
Lemma groupBeat_throws (rows : list beatRow) :
  Exists (fun r => inherited (beat_type r) = true) rows ->
  forall acc, plainKeys acc ->
    fold_left groupBeat rows (Resolved acc) = Rejected TypeError.
Proof.
  induction rows as [|r rows IH]; intros Hex acc Hacc;
    [inversion Hex|].
  cbn [fold_left groupBeat].
  destruct (own (beat_type r) acc) as [ps|] eqn:Hown.
  - pose proof (plainKeys_own _ Hacc Hown) as Hplain.
    inversion Hex as [? ? Hr|? ? Hrest]; subst;
      [rewrite Hr in Hplain; discriminate|].
    apply IH; [exact Hrest|apply plainKeys_put; assumption].
  - destruct (inherited (beat_type r)) eqn:Hin;
      [apply groupBeat_rejected|].
    inversion Hex as [? ? Hr|? ? Hrest]; subst;
      [rewrite Hr in Hin; discriminate|].
    apply IH; [exact Hrest|apply plainKeys_put; assumption].
Qed.

Lemma pagesOf_cons (k : jsstring) (r : beatRow) (rows : list beatRow) :
  pagesOf k (r :: rows)
  = if eqs (beat_type r) k then page_number r :: pagesOf k rows
    else pagesOf k rows.
Proof.
  unfold pagesOf. cbn [filter]. destruct (eqs (beat_type r) k); reflexivity.
Qed.

(** Rows of plain types are grouped by type, in the order of the rows. *)
Lemma groupBeat_groups (rows : list beatRow) :
  Forall (fun r => inherited (beat_type r) = false) rows ->
  forall acc, exists grouped,
    fold_left groupBeat rows (Resolved acc) = Resolved grouped
    /\ forall k,
         own k grouped
         = match own k acc, pagesOf k rows with
           | None, [] => None
           | Some qs, ps => Some (qs ++ ps)
           | None, ps => Some ps
           end.
Proof.
  induction 1 as [|r rows Hr _ IH]; intros acc.
  - exists acc. split; [reflexivity|]. intros k. cbn [pagesOf filter List.map].
    destruct (own k acc); [rewrite app_nil_r|]; reflexivity.
  - cbn [fold_left groupBeat].
    destruct (own (beat_type r) acc) as [qs|] eqn:Hown.
    + destruct (IH (put (beat_type r) (qs ++ [page_number r]) acc))
        as (grouped & Hg & Hk).
      exists grouped. split; [exact Hg|]. intros k. rewrite Hk, pagesOf_cons.
      destruct (eqs (beat_type r) k) eqn:E.
      * apply JSFacts.eqs_eq in E. subst k.
        rewrite RuntimeFacts.own_put_same, Hown, <- app_assoc. reflexivity.
      * rewrite RuntimeFacts.own_put_other; [reflexivity|].
        intros ->. rewrite JSFacts.eqs_refl in E. discriminate.
    + rewrite Hr.
      destruct (IH (put (beat_type r) [page_number r] acc))
        as (grouped & Hg & Hk).
      exists grouped. split; [exact Hg|]. intros k. rewrite Hk, pagesOf_cons.
      destruct (eqs (beat_type r) k) eqn:E.
      * apply JSFacts.eqs_eq in E. subst k.
        rewrite RuntimeFacts.own_put_same, Hown. reflexivity.
      * rewrite RuntimeFacts.own_put_other; [reflexivity|].
        intros ->. rewrite JSFacts.eqs_refl in E. discriminate.
Qed.

Lemma own_averageBeat (k : jsstring) (o : object (list number)) :
  own k (List.map averageBeat o) = option_map mean (own k o).
Proof.
  induction o as [|[k' ps] o IH]; [reflexivity|].
  cbn [List.map averageBeat own]. destruct (eqs k k'); [reflexivity|exact IH].
Qed.

(** ** The steps of generateOutline do not read the state *)

Lemma findSimilarScripts_state (db : database) (genre : option jsstring)
    (limit : nat) (this : generator) :
  findSimilarScripts db genre limit this
  = (fst (findSimilarScripts db genre limit constructor), this).
Proof.
  unfold findSimilarScripts.
  destruct (scripts_like db genre limit) as [scripts|]; [|reflexivity].
  destruct (length scripts =? 0); reflexivity.
Qed.

Lemma calculateOptimalStructure_state (scripts : list script)
    (this : generator) :
  calculateOptimalStructure scripts this
  = (fst (calculateOptimalStructure scripts constructor), this).
Proof.
  unfold calculateOptimalStructure.
  destruct (length scripts =? 0); reflexivity.
Qed.

Lemma getBeatTiming_state (db : database) (scripts : list script)
    (this : generator) :
  getBeatTiming db scripts this
  = (fst (getBeatTiming db scripts constructor), this).
Proof.
  unfold getBeatTiming.
  destruct (length scripts =? 0); [reflexivity|].
  destruct (story_beats_in db (List.map id scripts)) as [rows|];
    [|reflexivity].
  destruct (length rows =? 0); [reflexivity|].
  destruct (fold_left groupBeat rows (Resolved [])); reflexivity.
Qed.

Lemma predictSuccess_state (scripts : list script) (genre : option jsstring)
    (this : generator) :
  predictSuccess scripts genre this
  = (fst (predictSuccess scripts genre constructor), this).
Proof.
  unfold predictSuccess. destruct (length scripts =? 0); reflexivity.
Qed.

Lemma load_step (db : database) (this : generator) :
  match patterns this with
  | None => loadPatterns db this
  | Some _ => ret tt this
  end = (Resolved tt, loaded db this).
Proof.
  unfold loaded, loadPatterns, ret. destruct this as [[ps|]]; reflexivity.
Qed.

(** [generateOutline] as one pass over the database, the state put
    aside. *)
Lemma generateOutline_state (db : database) (premise genre : option jsstring)
    (targetLength : option number) (this : generator) :
  generateOutline db premise genre targetLength this
  = (fst (generateOutline db premise genre targetLength
            (GeneratorObject (Some []))),
     loaded db this).
Proof.
  unfold generateOutline, bind.
  rewrite load_step.
  change (match patterns (GeneratorObject (Some [])) with
          | None => loadPatterns db (GeneratorObject (Some []))
          | Some _ => ret tt (GeneratorObject (Some []))
          end) with (Resolved tt, GeneratorObject (Some [])).
  cbv iota.
  rewrite (findSimilarScripts_state db genre 10 (loaded db this)).
  rewrite (findSimilarScripts_state db genre 10 (GeneratorObject (Some []))).
  destruct (fst (findSimilarScripts db genre 10 constructor))
    as [scripts|e]; [|reflexivity].
  rewrite (calculateOptimalStructure_state scripts (loaded db this)).
  rewrite (calculateOptimalStructure_state scripts (GeneratorObject (Some []))).
  destruct (fst (calculateOptimalStructure scripts constructor))
    as [st|e]; [|reflexivity].
  rewrite (getBeatTiming_state db scripts (loaded db this)).
  rewrite (getBeatTiming_state db scripts (GeneratorObject (Some []))).
  destruct (fst (getBeatTiming db scripts constructor))
    as [timing|e]; [|reflexivity].
  rewrite (predictSuccess_state scripts genre (loaded db this)).
  rewrite (predictSuccess_state scripts genre (GeneratorObject (Some []))).
  destruct (fst (predictSuccess scripts genre constructor))
    as [p|e]; reflexivity.
Qed.

Lemma findSimilarScripts_some (db : database) (genre : option jsstring)
    (scripts : list script) (this : generator) :
  scripts_like db genre 10 = Some scripts -> scripts <> [] ->
  findSimilarScripts db genre 10 this = (Resolved scripts, this).
Proof.
  intros Hs Hne. unfold findSimilarScripts. rewrite Hs.
  destruct scripts; [contradiction|reflexivity].
Qed.


End GeneratorFacts.

Module GeneratorExtra.
Import JS Generator GeneratorNotions.
Local Open Scope nat_scope.

(** X17: when comparables are found and one of their story-beat rows has a
    beat type that names a member of [Object.prototype] (constructor,
    toString, __proto__, ...), [generateOutline] rejects with a
    [TypeError]: the grouping of [getBeatTiming] reads the inherited member
    and calls [push] on it. *)
Theorem generateOutline_rejects_inherited_beat_type (db : database)
    (premise genre : option jsstring) (targetLength : option number)
    (this : generator) (scripts : list script) (rows : list beatRow) :
  scripts_like db genre 10 = Some scripts ->
  scripts <> [] ->
  story_beats_in db (List.map id scripts) = Some rows ->
  Exists (fun r => inherited (beat_type r) = true) rows ->
  fst (generateOutline db premise genre targetLength this)
  = Rejected TypeError.
Proof.
  intros Hs Hne Hrows Hex. unfold generateOutline, bind.
  rewrite GeneratorFacts.load_step.
  rewrite (GeneratorFacts.findSimilarScripts_some db genre _ Hs Hne).
  rewrite GeneratorFacts.calculateOptimalStructure_state.
  destruct (fst (calculateOptimalStructure scripts constructor))
    as [st|e] eqn:Est.
  - unfold getBeatTiming. rewrite Hrows.
    destruct scripts as [|s scripts]; [contradiction|].
    destruct rows as [|r rows]; [inversion Hex|].
    cbn [length Nat.eqb].
    assert (Hg : fold_left groupBeat (r :: rows) (Resolved [])
                 = Rejected TypeError)
      by (apply (GeneratorFacts.groupBeat_throws Hex); intros k _; reflexivity).
    unfold object in Hg |- *. rewrite Hg. reflexivity.
  - unfold calculateOptimalStructure in Est.
    destruct (length scripts =? 0); discriminate Est.
Qed.

(** X18: with comparables whose story-beat rows have plain types,
    [getBeatTiming] resolves with, for each beat type of the rows, the
    rounded mean of the pages of the rows of that type, added up in the
    order of the rows; a type without a row has no entry. *)
Theorem getBeatTiming_averages_by_type (db : database)
    (scripts : list script) (rows : list beatRow) (this : generator) :
  scripts <> [] ->
  story_beats_in db (List.map id scripts) = Some rows ->
  rows <> [] ->
  Forall (fun r => inherited (beat_type r) = false) rows ->
  exists timing,
    getBeatTiming db scripts this = (Resolved timing, this)
    /\ forall k,
         own k timing = match pagesOf k rows with
                        | [] => None
                        | ps => Some (mean ps)
                        end.
Proof.
  intros Hne Hrows Hrne Hplain. unfold getBeatTiming. rewrite Hrows.
  destruct scripts as [|s scripts]; [contradiction|].
  destruct rows as [|r rows]; [contradiction|].
  cbn [length Nat.eqb].
  destruct (GeneratorFacts.groupBeat_groups Hplain []) as (grouped & Hg & Hk).
  unfold object in Hg |- *. rewrite Hg.
  exists (List.map averageBeat grouped). split; [reflexivity|].
  intros k. rewrite GeneratorFacts.own_averageBeat, Hk. cbn [own].
  destruct (pagesOf k (r :: rows)); reflexivity.
Qed.

(** X19: the learned patterns play no part in the outline: on two databases
    that answer the queries for scripts and for story beats alike, and
    from any two states of the generator, [generateOutline] settles the
    same way, with the same outline. *)
Theorem outline_ignores_learned_patterns (db db' : database)
    (premise genre : option jsstring) (targetLength : option number)
    (this this' : generator) :
  scripts_like db = scripts_like db' ->
  story_beats_in db = story_beats_in db' ->
  fst (generateOutline db premise genre targetLength this)
  = fst (generateOutline db' premise genre targetLength this').
Proof.
  intros Hs Hb.
  rewrite (GeneratorFacts.generateOutline_state db premise genre targetLength this).
  rewrite (GeneratorFacts.generateOutline_state db' premise genre targetLength this').
  cbn [fst]. unfold generateOutline, bind, ret. cbn [patterns].
  unfold findSimilarScripts, getBeatTiming. rewrite Hs, Hb. reflexivity.
Qed.

(** X20: [generateOutline] loads the learned patterns when the generator holds
    none, and only then: after the call, resolved or rejected, the
    generator holds the patterns it held before, or else the rows of the
    database, or an empty list when the database gave none. *)
Theorem patterns_loaded_at_most_once (db : database)
    (premise genre : option jsstring) (targetLength : option number)
    (this : generator) :
  patterns (snd (generateOutline db premise genre targetLength this))
  = Some match patterns this with
         | Some ps => ps
         | None => match learned_patterns db with
                   | Some ps => ps
                   | None => []
                   end
         end.
Proof. rewrite GeneratorFacts.generateOutline_state. reflexivity. Qed.


(** X22: when no comparable has a box office figure, or none other than 0,
    [generateRecommendations] gives no budget: the mean of no figure is
    0/0, which is not above 0. *)
Theorem no_budget_without_box_office (similarScripts : list script)
    (st : structure) :
  forallb unpaid similarScripts = true ->
  r_budget (generateRecommendations similarScripts st) = None.
Proof.
  intros H. unfold generateRecommendations. cbn [r_budget].
  assert (E : filter (fun s => match box_office s with
                               | Some b => truthy b
                               | None => false
                               end) similarScripts = []).
  { induction similarScripts as [|s l IH]; [reflexivity|].
    cbn [forallb] in H. apply andb_true_iff in H. destruct H as [Hs Hl].
    cbn [filter]. unfold unpaid in Hs.
    destruct (box_office s) as [b|]; [|exact (IH Hl)].
    apply negb_true_iff in Hs. rewrite Hs. exact (IH Hl). }
  rewrite E. cbn [fold_left length].
  change (0 <? 0 / ofNat 0)%float with false.
  rewrite andb_false_r. reflexivity.
Qed.

(** ** At concrete databases *)

Lemma generateOutline_rejects_inherited_beat_type_witness :
  Exists (fun r => inherited (beat_type r) = true) Samples.hazardRows
  /\ fst (generateOutline (Samples.beatsDatabase None Samples.hazardRows)
            (Some (lit "A premise")) (Some (lit "Drama")) None constructor)
     = Rejected TypeError.
Proof.
  assert (H : Exists (fun r => inherited (beat_type r) = true)
                Samples.hazardRows)
    by (apply Exists_cons_tl, Exists_cons_hd; vm_compute; reflexivity).
  assert (Hne : Inputs.threeComparables <> []) by (vm_compute; discriminate).
  split; [exact H|].
  exact (@generateOutline_rejects_inherited_beat_type
           (Samples.beatsDatabase None Samples.hazardRows)
           (Some (lit "A premise")) (Some (lit "Drama")) None constructor
           Inputs.threeComparables Samples.hazardRows eq_refl Hne eq_refl H).
Defined.

Lemma getBeatTiming_averages_by_type_witness :
  Forall (fun r => inherited (beat_type r) = false) Samples.plainRows
  /\ exists timing,
       getBeatTiming (Samples.beatsDatabase None Samples.plainRows)
         Inputs.threeComparables constructor
       = (Resolved timing, constructor)
       /\ forall k,
            own k timing = match pagesOf k Samples.plainRows with
                           | [] => None
                           | ps => Some (mean ps)
                           end.
Proof.
  assert (H : Forall (fun r => inherited (beat_type r) = false)
                Samples.plainRows)
    by (repeat constructor).
  assert (Hne : Inputs.threeComparables <> []) by (vm_compute; discriminate).
  assert (Hrne : Samples.plainRows <> []) by (vm_compute; discriminate).
  split; [exact H|].
  exact (@getBeatTiming_averages_by_type
           (Samples.beatsDatabase None Samples.plainRows)
           Inputs.threeComparables Samples.plainRows constructor
           Hne eq_refl Hrne H).
Defined.

Lemma outline_ignores_learned_patterns_witness :
  fst (generateOutline (Samples.beatsDatabase None Samples.plainRows)
         (Some (lit "A premise")) (Some (lit "Drama")) None constructor)
  = fst (generateOutline
           (Samples.beatsDatabase
              (Some [Pattern (lit "structure") (lit "three acts")])
              Samples.plainRows)
           (Some (lit "A premise")) (Some (lit "Drama")) None
           (GeneratorObject (Some []))).
Proof.
  exact (@outline_ignores_learned_patterns
           (Samples.beatsDatabase None Samples.plainRows)
           (Samples.beatsDatabase
              (Some [Pattern (lit "structure") (lit "three acts")])
              Samples.plainRows)
           (Some (lit "A premise")) (Some (lit "Drama")) None constructor
           (GeneratorObject (Some [])) eq_refl eq_refl).
Defined.


Lemma no_budget_without_box_office_witness :
  forallb unpaid Inputs.threeComparables = true
  /\ r_budget (generateRecommendations Inputs.threeComparables
                 (Structure 110 30 60 90 110)%float) = None.
Proof.
  split; [reflexivity|].
  exact (@no_budget_without_box_office Inputs.threeComparables
           (Structure 110 30 60 90 110)%float eq_refl).
Defined.

End GeneratorExtra.

(* ================================================================== *)
(** * Properties of the batch parser                                    *)
(* ================================================================== *)

Module BatchFacts.
Import JS Batch.
Local Open Scope nat_scope.

Lemma process_counts (w : world) (scripts : list scriptRow)
    (this : batchParser) (i : nat) :
  i < length scripts ->
  totalProcessed (process w scripts this i) = S (totalProcessed this)
  /\ successCount this <= successCount (process w scripts this i)
  /\ failCount this <= failCount (process w scripts this i)
  /\ skippedCount this <= skippedCount (process w scripts this i).
Proof.
  intros Hi. unfold process, totalProcessed.
  destruct (nth_error scripts i) as [script|] eqn:E;
    [|apply nth_error_None in E; lia].
  destruct (has_scenes w i script);
    [cbn [successCount failCount skippedCount]; lia|].
  destruct (parseAndSave w i script);
    cbn [successCount failCount skippedCount]; lia.
Qed.

Lemma fold_process_counts (w : world) (scripts : list scriptRow)
    (l : list nat) :
  Forall (fun i => i < length scripts) l ->
  forall this,
    totalProcessed (fold_left (process w scripts) l this)
    = totalProcessed this + length l
    /\ successCount this <= successCount (fold_left (process w scripts) l this)
    /\ failCount this <= failCount (fold_left (process w scripts) l this)
    /\ skippedCount this
       <= skippedCount (fold_left (process w scripts) l this).
Proof.
  induction 1 as [|i l Hi _ IH]; intros this; cbn [fold_left length];
    [repeat split; lia|].
  destruct (IH (process w scripts this i)) as (H1 & H2 & H3 & H4).
  destruct (@process_counts w scripts this i Hi) as (P1 & P2 & P3 & P4).
  repeat split; lia.
Qed.

End BatchFacts.

Module BatchExtra.
Import JS Batch.
Local Open Scope nat_scope.

(** X23: a run of [parseAllScripts] counts every script of the answer once, as
    parsed, failed or skipped: the total of the three counters grows by the
    number of scripts, whatever the database holds and however the parser
    settles, and by nothing when the query fails or returns no script.  No
    counter goes down. *)
Theorem every_script_is_counted_once (w : world) (this : batchParser) :
  totalProcessed (parseAllScripts w this)
  = totalProcessed this
    + match all_scripts w with
      | Data (Some scripts) => length scripts
      | _ => 0
      end
  /\ successCount this <= successCount (parseAllScripts w this)
  /\ failCount this <= failCount (parseAllScripts w this)
  /\ skippedCount this <= skippedCount (parseAllScripts w this).
Proof.
  unfold parseAllScripts.
  destruct (all_scripts w) as [|[scripts|]]; [repeat split; lia| |repeat split; lia].
  destruct (length scripts =? 0) eqn:E.
  - apply Nat.eqb_eq in E. rewrite E. repeat split; lia.
  - assert (Hall : Forall (fun i => i < length scripts)
                     (seq 0 (length scripts)))
      by (apply Forall_forall; intros i Hi; apply in_seq in Hi; lia).
    destruct (@BatchFacts.fold_process_counts w scripts _ Hall this)
      as (H1 & H2 & H3 & H4).
    rewrite length_seq in H1. repeat split; assumption.
Qed.

End BatchExtra.
